(** * Live scoreboard (problem6): leaderboard service, cache and routes

    A shallow embedding of [src/database.ts], [src/cache.ts],
    [src/leaderboard.ts], [src/routes.ts] and [src/app.ts].

    Every [await] of the TypeScript source is an operation of a small free
    monad [Prog]; the SQL statements and Redis commands are interpreted on
    an explicit [World] (tables, Redis key, clock, socket.io log).  A
    promise that rejects is an [Error] handed to the continuation, so that
    [try]/[catch] can be written as in the source.

    The three summation functions of [problem4/index.ts] are embedded in
    module [Problem4]. *)

From Stdlib Require Import ZArith NArith List String Ascii Bool Arith Lia.
From Stdlib Require Import Permutation Sorted.
Import ListNotations.
Local Open Scope string_scope.
Local Open Scope Z_scope.

Set Implicit Arguments.

(** ** Values *)

(** [new Date().toISOString()] yields fixed-width ISO-8601 strings whose
    lexicographic order is the chronological one; an instant is modelled
    as the number of milliseconds it denotes. *)
Definition Timestamp := N.

(** [uuidv4()]: an opaque random identifier. *)
Definition Uuid := nat.

(** A JavaScript [Error]; only its [message] is ever inspected. *)
Record Error : Type := MkError { message : string }.

(** ** Tables of [createTables] (database.ts) *)

Record User : Type := MkUser
  { u_id : string; u_username : string; u_email : string; u_createdAt : Timestamp }.

Record ScoreHistory : Type := MkScoreHistory
  { sh_id : Uuid;
    sh_userId : string;
    sh_actionType : string;
    sh_scoreIncrease : Z;
    sh_timestamp : Timestamp }.

Record ActionRow : Type := MkActionRow
  { a_id : string; a_action_type : string; a_score_value : Z; a_created_at : Timestamp }.

Record IdempotencyRow : Type := MkIdempotencyRow
  { i_action_id : string; i_user_id : string; i_timestamp : Timestamp }.

(** The rows of each table.  [users] is listed in the order in which the
    engine enumerates the groups of [GROUP BY u.id, u.username] (for SQLite
    the order of the primary key); the other tables are in insertion
    order.  SQLite does not enforce the [FOREIGN KEY] clauses unless
    [PRAGMA foreign_keys] is switched on, which the code never does. *)
Record Db : Type := MkDb
  { users : list User;
    score_history : list ScoreHistory;
    actions : list ActionRow;
    idempotency : list IdempotencyRow }.

(** Row of the aggregate query of [getAllUsersWithScores]. *)
Record UserScoreRow : Type := MkUserScoreRow
  { r_id : string;
    r_username : string;
    r_totalScore : Z;
    r_lastUpdated : option Timestamp }.

(** ** SQL, statement by statement *)

Definition sum_Z (l : list Z) : Z := fold_right Z.add 0 l.

Definition events_of (d : Db) (userId : string) : list ScoreHistory :=
  filter (fun h => String.eqb (sh_userId h) userId) (score_history d).

(** [SELECT COALESCE(SUM(score_increase), 0) FROM score_history WHERE user_id = ?] *)
Definition sql_total_score (d : Db) (userId : string) : Z :=
  sum_Z (map sh_scoreIncrease (events_of d userId)).

(** [MAX(sh.timestamp)], [NULL] over no rows. *)
Definition max_timestamp (l : list Timestamp) : option Timestamp :=
  match l with
  | [] => None
  | t :: l' => Some (fold_right N.max t l')
  end.

(** [ORDER BY key DESC]: rows with equal keys stay in arrival order (SQL
    leaves their order to the engine; SQLite's sorter keeps it). *)
Section OrderBy.
Variable A : Type.
Variable key : A -> Z.

Fixpoint insert_desc (x : A) (l : list A) : list A :=
  match l with
  | [] => [x]
  | y :: l' => if key x <? key y then y :: insert_desc x l' else x :: l
  end.

Definition order_by_desc (l : list A) : list A :=
  fold_right insert_desc [] l.
End OrderBy.

(** [SELECT u.id, u.username, COALESCE(SUM(sh.score_increase), 0) as totalScore,
            MAX(sh.timestamp) as lastUpdated
     FROM users u LEFT JOIN score_history sh ON u.id = sh.user_id
     GROUP BY u.id, u.username ORDER BY totalScore DESC] *)
Definition user_score_row (d : Db) (u : User) : UserScoreRow :=
  {| r_id := u_id u;
     r_username := u_username u;
     r_totalScore := sql_total_score d (u_id u);
     r_lastUpdated := max_timestamp (map sh_timestamp (events_of d (u_id u))) |}.

Definition sql_all_users_with_scores (d : Db) : list UserScoreRow :=
  order_by_desc r_totalScore (map (user_score_row d) (users d)).

(** The groups of [SELECT user_id, SUM(score_increase) as total
    FROM score_history GROUP BY user_id]. *)
Definition history_user_ids (d : Db) : list string :=
  nodup string_dec (map sh_userId (score_history d)).

(** [SELECT COUNT( * ) + 1 as rank FROM (...) WHERE total > (...)] of
    [getUserRank]. *)
Definition sql_user_rank (d : Db) (userId : string) : Z :=
  Z.of_nat (List.length
    (filter (fun g => sql_total_score d userId <? sql_total_score d g)
            (history_user_ids d))) + 1.

(** [SELECT * FROM users WHERE id = ?] *)
Definition sql_user_by_id (d : Db) (id : string) : option User :=
  find (fun u => String.eqb (u_id u) id) (users d).

(** [SELECT action_id FROM idempotency WHERE action_id = ?] *)
Definition sql_idempotency (d : Db) (actionId : string) : option string :=
  option_map i_action_id
    (find (fun r => String.eqb (i_action_id r) actionId) (idempotency d)).

(** [SELECT score_value FROM actions WHERE action_type = ?] *)
Definition sql_action_score_value (d : Db) (actionType : string) : option Z :=
  option_map a_score_value
    (find (fun a => String.eqb (a_action_type a) actionType) (actions d)).

Definition set_score_history (d : Db) (l : list ScoreHistory) : Db :=
  {| users := users d; score_history := l;
     actions := actions d; idempotency := idempotency d |}.

Definition set_idempotency (d : Db) (l : list IdempotencyRow) : Db :=
  {| users := users d; score_history := score_history d;
     actions := actions d; idempotency := l |}.

(** [INSERT INTO score_history ...]; [id] is the primary key. *)
Definition sql_insert_score_history (d : Db) (h : ScoreHistory) : Error + Db :=
  if existsb (fun h' => Nat.eqb (sh_id h') (sh_id h)) (score_history d)
  then inl (MkError "SQLITE_CONSTRAINT: UNIQUE constraint failed: score_history.id")
  else inr (set_score_history d (score_history d ++ [h])).

(** [INSERT INTO idempotency ...]; [action_id] is the primary key. *)
Definition sql_insert_idempotency (d : Db) (r : IdempotencyRow) : Error + Db :=
  if existsb (fun r' => String.eqb (i_action_id r') (i_action_id r)) (idempotency d)
  then inl (MkError "SQLITE_CONSTRAINT: UNIQUE constraint failed: idempotency.action_id")
  else inr (set_idempotency d (idempotency d ++ [r])).

(** An identifier that [uuidv4()] may return: one not yet in the table. *)
Definition fresh_uuid (d : Db) : Uuid :=
  S (fold_right Nat.max 0%nat (map sh_id (score_history d))).

(** ** Redis key [leaderboard:top10] (cache.ts) *)

(** A member of the sorted set: [JSON.stringify({userId, username, score})].
    [JSON.parse] gives the same three fields back, so the member is kept
    as the record itself. *)
Record CachedMember : Type := MkCachedMember
  { c_userId : string; c_username : string; c_score : Z }.

Definition member_eqb (a b : CachedMember) : bool :=
  String.eqb (c_userId a) (c_userId b)
  && String.eqb (c_username a) (c_username b)
  && (c_score a =? c_score b).

(** The sorted set with its sort scores, and the instant at which the key
    expires, if a time to live was set. *)
Record Redis : Type := MkRedis
  { zset : list (Z * CachedMember);
    expire_at : option Timestamp }.

Definition redis_empty : Redis := {| zset := []; expire_at := None |}.

(** What a command sees at instant [now]: an expired key is gone. *)
Definition redis_live (r : Redis) (now : Timestamp) : Redis :=
  match expire_at r with
  | Some t => if (t <=? now)%N then redis_empty else r
  | None => r
  end.

(** [ZADD]: a member already present gets the new score. *)
Definition zadd1 (l : list (Z * CachedMember)) (m : Z * CachedMember)
  : list (Z * CachedMember) :=
  filter (fun x => negb (member_eqb (snd x) (snd m))) l ++ [m].

Definition redis_zadd (r : Redis) (now : Timestamp)
    (members : list (Z * CachedMember)) : Redis :=
  let r' := redis_live r now in
  {| zset := fold_left zadd1 members (zset r'); expire_at := expire_at r' |}.

(** [EXPIRE key ttl] (seconds): no effect on a key that does not exist. *)
Definition redis_expire (r : Redis) (now : Timestamp) (ttl : N) : Redis :=
  let r' := redis_live r now in
  match zset r' with
  | [] => r'
  | _ => {| zset := zset r'; expire_at := Some (now + 1000 * ttl)%N |}
  end.

(** [ZRANGE key 0 -1 REV]: members by decreasing sort score.  (Redis orders
    members of equal sort score by their bytes; [cacheTop10] never stores
    two members with the same sort score.) *)
Definition redis_zrange_rev (r : Redis) (now : Timestamp) : list CachedMember :=
  map snd (order_by_desc fst (zset (redis_live r now))).

(** ** The world the service runs in *)

Record ScoreUpdateResult : Type := MkScoreUpdateResult
  { res_userId : string;
    res_previousScore : Z;
    res_newScore : Z;
    res_scoreIncrease : Z;
    res_rank : Z;
    res_timestamp : Timestamp }.

(** One [io.to(room).emit(event, payload)]. *)
Record Emitted : Type := MkEmitted
  { e_room : string;
    e_event : string;
    e_data : ScoreUpdateResult;
    e_timestamp : Timestamp }.

(** [db_fault = Some (n, msg)]: the store answers [n] more statements and
    rejects every later one with [msg] (disk full, database locked, ...).
    [redis_fault = Some msg]: the cache client is not connected or Redis is
    unreachable, every cache call rejects with [msg]. *)
Record World : Type := MkWorld
  { db : Db;
    db_fault : option (nat * string);
    redis : Redis;
    redis_fault : option string;
    clock : Timestamp;
    emitted : list Emitted }.

Definition set_db (w : World) (d : Db) : World :=
  {| db := d; db_fault := db_fault w; redis := redis w;
     redis_fault := redis_fault w; clock := clock w; emitted := emitted w |}.

Definition set_db_fault (w : World) (f : option (nat * string)) : World :=
  {| db := db w; db_fault := f; redis := redis w;
     redis_fault := redis_fault w; clock := clock w; emitted := emitted w |}.

Definition set_redis (w : World) (r : Redis) : World :=
  {| db := db w; db_fault := db_fault w; redis := r;
     redis_fault := redis_fault w; clock := clock w; emitted := emitted w |}.

Definition set_emitted (w : World) (l : list Emitted) : World :=
  {| db := db w; db_fault := db_fault w; redis := redis w;
     redis_fault := redis_fault w; clock := clock w; emitted := l |}.

(** Time passing between two requests. *)
Definition advance (ms : N) (w : World) : World :=
  {| db := db w; db_fault := db_fault w; redis := redis w;
     redis_fault := redis_fault w; clock := (clock w + ms)%N;
     emitted := emitted w |}.

(** ** Operations: one per SQL statement, Redis command or library call *)

Inductive Op : Type -> Type :=
| SqlUserById (id : string) : Op (option User)
| SqlInsertScoreHistory (h : ScoreHistory) : Op unit
| SqlTotalScore (userId : string) : Op Z
| SqlAllUsersWithScores : Op (list UserScoreRow)
| SqlInsertIdempotency (r : IdempotencyRow) : Op unit
| SqlIdempotency (actionId : string) : Op (option string)
| SqlActionScoreValue (actionType : string) : Op (option Z)
| SqlUserRank (userId : string) : Op Z
| RedisZRangeRev : Op (list CachedMember)
| RedisDel : Op unit
| RedisZAdd (members : list (Z * CachedMember)) : Op unit
| RedisExpire (ttl : N) : Op unit
| DateNow : Op Timestamp
| UuidV4 : Op Uuid
| IoEmit (room event : string) (data : ScoreUpdateResult) (ts : Timestamp) : Op unit.

(** [DateNow], [UuidV4] and [IoEmit] return at once; the others are
    promises, at which the event loop may run another request. *)
Definition is_sync (X : Type) (op : Op X) : bool :=
  match op with
  | DateNow | UuidV4 | IoEmit _ _ _ _ => true
  | _ => false
  end.

(** A statement sent to the store. *)
Definition sql (X : Type) (w : World) (stmt : Db -> Error + (Db * X))
  : World * (Error + X) :=
  match db_fault w with
  | Some (O, msg) => (w, inl (MkError msg))
  | f =>
      let w1 := match f with
                | Some (S n, msg) => set_db_fault w (Some (n, msg))
                | _ => w
                end in
      match stmt (db w) with
      | inl e => (w1, inl e)
      | inr (d, x) => (set_db w1 d, inr x)
      end
  end.

Definition query (X : Type) (f : Db -> X) (d : Db) : Error + (Db * X) :=
  inr (d, f d).

Definition exec (f : Db -> Error + Db) (d : Db) : Error + (Db * unit) :=
  match f d with
  | inl e => inl e
  | inr d' => inr (d', tt)
  end.

(** A command sent to Redis. *)
Definition rcmd (X : Type) (w : World) (cmd : Redis -> Timestamp -> Redis * X)
  : World * (Error + X) :=
  match redis_fault w with
  | Some msg => (w, inl (MkError msg))
  | None => let '(r, x) := cmd (redis w) (clock w) in (set_redis w r, inr x)
  end.

Definition handle (X : Type) (op : Op X) (w : World) : World * (Error + X) :=
  match op in Op X return World * (Error + X) with
  | SqlUserById id => sql w (query (fun d => sql_user_by_id d id))
  | SqlInsertScoreHistory h => sql w (exec (fun d => sql_insert_score_history d h))
  | SqlTotalScore u => sql w (query (fun d => sql_total_score d u))
  | SqlAllUsersWithScores => sql w (query sql_all_users_with_scores)
  | SqlInsertIdempotency r => sql w (exec (fun d => sql_insert_idempotency d r))
  | SqlIdempotency a => sql w (query (fun d => sql_idempotency d a))
  | SqlActionScoreValue t => sql w (query (fun d => sql_action_score_value d t))
  | SqlUserRank u => sql w (query (fun d => sql_user_rank d u))
  | RedisZRangeRev => rcmd w (fun r now => (r, redis_zrange_rev r now))
  | RedisDel => rcmd w (fun _ _ => (redis_empty, tt))
  | RedisZAdd ms => rcmd w (fun r now => (redis_zadd r now ms, tt))
  | RedisExpire ttl => rcmd w (fun r now => (redis_expire r now ttl, tt))
  | DateNow => (w, inr (clock w))
  | UuidV4 => (w, inr (fresh_uuid (db w)))
  | IoEmit room ev data ts =>
      (set_emitted w (emitted w ++ [MkEmitted room ev data ts]), inr tt)
  end.

(** ** Asynchronous programs *)

Inductive Prog (A : Type) : Type :=
| Ret (a : A)
| Throw (e : Error)
| Vis (X : Type) (op : Op X) (k : Error + X -> Prog A).

Arguments Ret {A} a.
Arguments Throw {A} e.
Arguments Vis {A X} op k.

Fixpoint bind (A B : Type) (p : Prog A) (f : A -> Prog B) : Prog B :=
  match p with
  | Ret a => f a
  | Throw e => Throw e
  | Vis op k => Vis op (fun r => bind (k r) f)
  end.

(** [await op]: a rejected promise throws at the [await]. *)
Definition await (X : Type) (op : Op X) : Prog X :=
  Vis op (fun r => match r with inl e => Throw e | inr x => Ret x end).

(** [try { p } catch (err) { h err }] *)
Fixpoint try_catch (A : Type) (p : Prog A) (h : Error -> Prog A) : Prog A :=
  match p with
  | Ret a => Ret a
  | Throw e => h e
  | Vis op k => Vis op (fun r => try_catch (k r) h)
  end.

Declare Scope prog_scope.
Delimit Scope prog_scope with prog.
Notation "x <- p ;; q" := (bind p (fun x => q))
  (at level 61, p at next level, right associativity) : prog_scope.
Notation "p ;;; q" := (bind p (fun _ => q))
  (at level 61, right associativity) : prog_scope.
Local Open Scope prog_scope.

(** One request served alone, to completion. *)
Fixpoint run (A : Type) (p : Prog A) (w : World) : World * (Error + A) :=
  match p with
  | Ret a => (w, inr a)
  | Throw e => (w, inl e)
  | Vis op k => let '(w', r) := handle op w in run (k r) w'
  end.

(** One turn of the event loop for a request: up to and including its next
    promise. *)
Fixpoint turn (A : Type) (p : Prog A) (w : World) : World * Prog A :=
  match p with
  | Vis op k =>
      let '(w', r) := handle op w in
      if is_sync op then turn (k r) w' else (w', k r)
  | _ => (w, p)
  end.

(** Two requests in flight; [sched] says whose turn comes next ([true]:
    the first).  When the schedule is used up, both run to completion. *)
Fixpoint interleave (A B : Type) (sched : list bool) (p : Prog A) (q : Prog B)
    (w : World) : World * (Error + A) * (Error + B) :=
  match sched with
  | [] =>
      let '(w1, ra) := run p w in
      let '(w2, rb) := run q w1 in
      (w2, ra, rb)
  | true :: s => let '(w', p') := turn p w in interleave s p' q w'
  | false :: s => let '(w', q') := turn q w in interleave s p q' w'
  end.

(** ** database.ts *)

(** [x || 0] on numbers. *)
Definition or_zero (x : Z) : Z := if x =? 0 then 0 else x.

(** [row?.score_value || null]: a missing row and a value of [0] both give
    [null]. *)
Definition or_null (x : option Z) : option Z :=
  match x with
  | Some v => if v =? 0 then None else Some v
  | None => None
  end.

Definition getUserById (id : string) : Prog (option User) :=
  await (SqlUserById id).

Definition addScoreHistory (h : ScoreHistory) : Prog ScoreHistory :=
  await (SqlInsertScoreHistory h) ;;; Ret h.

(** The driver hands the sum over as a JavaScript number: it is the stored
    integer as long as that is a safe integer, which the statements about
    returned values assume ([safe_history]). *)
Definition getTotalScore (userId : string) : Prog Z :=
  total <- await (SqlTotalScore userId) ;; Ret (or_zero total).

Definition getAllUsersWithScores : Prog (list UserScoreRow) :=
  await SqlAllUsersWithScores.

Definition recordAction (actionId userId : string) : Prog unit :=
  now <- await DateNow ;;
  await (SqlInsertIdempotency (MkIdempotencyRow actionId userId now)).

Definition isActionProcessed (actionId : string) : Prog bool :=
  row <- await (SqlIdempotency actionId) ;;
  Ret (match row with Some _ => true | None => false end).

(** As for [getTotalScore], the value read is the stored integer when that
    is a safe integer. *)
Definition getActionScoreValue (actionType : string) : Prog (option Z) :=
  row <- await (SqlActionScoreValue actionType) ;; Ret (or_null row).

(** ** cache.ts

    Every method starts with [if (!this.client) throw ...] and wraps its
    commands in a [try]/[catch] that only rethrows; both are the rejection
    of the command under [redis_fault]. *)

(** [interface CachedScore]; [lastUpdated] is declared but never stored,
    so it is [undefined] in every cached entry. *)
Record CachedScore : Type := MkCachedScore
  { cs_rank : Z; cs_userId : string; cs_username : string; cs_score : Z }.

(** [l.map((x, i) => f x (i + 1))] *)
Fixpoint map_rank (A B : Type) (f : A -> Z -> B) (rank : Z) (l : list A) : list B :=
  match l with
  | [] => []
  | x :: l' => f x rank :: map_rank f (rank + 1) l'
  end.

Module CacheService.

Definition TTL : N := 300.

(** [scores.slice(0, 10).map((s, i) => ({ score: 10 - i, value: ... }))] *)
Fixpoint members_from (i : Z) (l : list CachedMember) : list (Z * CachedMember) :=
  match l with
  | [] => []
  | s :: l' => (10 - i, s) :: members_from (i + 1) l'
  end.

Definition cacheTop10 (scores : list CachedMember) : Prog unit :=
  await RedisDel ;;;
  match scores with
  | [] => Ret tt
  | _ =>
      let members := members_from 0 (firstn 10 scores) in
      match members with
      | [] => Ret tt
      | _ => await (RedisZAdd members) ;;; await (RedisExpire TTL)
      end
  end.

(** [replies.map((reply, index) => ({ ...JSON.parse(reply), rank: index + 1 }))];
    [None] is [null]. *)
Definition getTop10 : Prog (option (list CachedScore)) :=
  replies <- await RedisZRangeRev ;;
  match replies with
  | [] => Ret None
  | _ =>
      Ret (Some (map_rank (fun m rank =>
                   MkCachedScore rank (c_userId m) (c_username m) (c_score m))
                   1 replies))
  end.

Definition invalidateTop10 : Prog unit := await RedisDel.

End CacheService.

(** ** leaderboard.ts *)

Record Top10Entry : Type := MkTop10Entry
  { t_rank : Z;
    t_userId : string;
    t_username : string;
    t_score : Z;
    t_lastUpdated : option Timestamp }.

Record Top10 : Type := MkTop10
  { scores : list Top10Entry; cachedAt : option Timestamp }.

Module LeaderboardService.

(** [resolve(row?.rank || 1)] *)
Definition getUserRank (userId : string) : Prog Z :=
  rank <- await (SqlUserRank userId) ;; Ret (if rank =? 0 then 1 else rank).

Definition getTop10 : Prog Top10 :=
  try_catch
    (cached <- CacheService.getTop10 ;;
     match cached with
     | Some ((_ :: _) as cached) =>
         now <- await DateNow ;;
         Ret {| scores :=
                  map (fun c =>
                    MkTop10Entry (cs_rank c) (cs_userId c) (cs_username c)
                                 (cs_score c) None)
                    cached;
                cachedAt := Some now |}
     | _ =>
         allUsersWithScores <- getAllUsersWithScores ;;
         let top10 :=
           map (fun u => MkCachedMember (r_id u) (r_username u) (r_totalScore u))
               (firstn 10 allUsersWithScores) in
         CacheService.cacheTop10 top10 ;;;
         now <- await DateNow ;;
         Ret {| scores :=
                  map_rank (fun u rank =>
                    MkTop10Entry rank (r_id u) (r_username u) (r_totalScore u)
                      (Some (match r_lastUpdated u with
                             | Some t => t
                             | None => now
                             end)))
                    1 (firstn 10 allUsersWithScores);
                cachedAt := None |}
     end)
    (fun err => Throw err).

Definition updateScore (userId actionId actionType : string)
  : Prog ScoreUpdateResult :=
  alreadyProcessed <- isActionProcessed actionId ;;
  if alreadyProcessed then
    score <- getTotalScore userId ;;
    rank <- getUserRank userId ;;
    now <- await DateNow ;;
    Ret (MkScoreUpdateResult userId score score 0 rank now)
  else
    scoreValue <- getActionScoreValue actionType ;;
    match scoreValue with
    | None => Throw (MkError ("Invalid action type: " ++ actionType))
    | Some scoreValue =>
        previousScore <- getTotalScore userId ;;
        id <- await UuidV4 ;;
        now <- await DateNow ;;
        addScoreHistory (MkScoreHistory id userId actionType scoreValue now) ;;;
        recordAction actionId userId ;;;
        newScore <- getTotalScore userId ;;
        CacheService.invalidateTop10 ;;;
        rank <- getUserRank userId ;;
        now' <- await DateNow ;;
        Ret (MkScoreUpdateResult userId previousScore newScore scoreValue rank now')
    end.

Definition getUserScoreAndRank (userId : string) : Prog (Z * Z) :=
  score <- getTotalScore userId ;;
  rank <- getUserRank userId ;;
  Ret (score, rank).

End LeaderboardService.

(** ** app.ts *)

(** [app.locals.broadcastScoreUpdate]: the only place that emits
    [score_updated] to the room [scoreboard]. *)
Definition broadcastScoreUpdate (data : ScoreUpdateResult) : Prog unit :=
  now <- await DateNow ;;
  await (IoEmit "scoreboard" "score_updated" data now).

(** ** routes.ts *)

(** A field of the parsed JSON body. *)
Inductive JsValue : Type :=
| JsUndefined
| JsNull
| JsBool (b : bool)
| JsNumber (z : Z)
| JsString (s : string)
| JsObject.

Definition truthy (v : JsValue) : bool :=
  match v with
  | JsUndefined | JsNull => false
  | JsBool b => b
  | JsNumber z => negb (z =? 0)
  | JsString s => negb (String.eqb s "")
  | JsObject => true
  end.

(** [hay.includes(needle)] *)
Definition includes (hay needle : string) : bool :=
  match String.index 0 needle hay with
  | Some _ => true
  | None => false
  end.

Inductive Body : Type :=
| ErrorBody (error : string) (code details : option string)
| UpdateBody (data : ScoreUpdateResult)
| Top10Body (scores : list Top10Entry) (generatedAt : Timestamp) (source : string)
| UserBody (userId username : string) (score rank : Z).

Record Response : Type := MkResponse { status : nat; body : Body }.

Module Routes.

(** [GET /api/scores/top10] *)
Definition getScoresTop10 : Prog Response :=
  try_catch
    (result <- LeaderboardService.getTop10 ;;
     now <- await DateNow ;;
     Ret (MkResponse 200
            (Top10Body (scores result) now
               (match cachedAt result with
                | Some _ => "cache"
                | None => "database"
                end))))
    (fun err =>
       Ret (MkResponse 500
              (ErrorBody "Failed to fetch top 10 scores" None (Some (message err))))).

(** [POST /api/scores/update], after [authMiddleware] has set
    [req.userId]. *)
Definition postScoresUpdate (userId : option string) (actionId actionType : JsValue)
  : Prog Response :=
  try_catch
    (match userId with
     | None | Some "" =>
         Ret (MkResponse 401 (ErrorBody "User not authenticated" None None))
     | Some userId =>
         if negb (truthy actionId) || negb (truthy actionType) then
           Ret (MkResponse 400
                  (ErrorBody "Missing required fields: actionId, actionType" None None))
         else
           match actionId, actionType with
           | JsString actionId, JsString actionType =>
               user <- getUserById userId ;;
               match user with
               | None => Ret (MkResponse 404 (ErrorBody "User not found" None None))
               | Some _ =>
                   result <- LeaderboardService.updateScore userId actionId actionType ;;
                   Ret (MkResponse 200 (UpdateBody result))
               end
           | _, _ => Ret (MkResponse 400 (ErrorBody "Invalid field types" None None))
           end
     end)
    (fun err =>
       if includes (message err) "Invalid action type" then
         Ret (MkResponse 400
                (ErrorBody (message err) (Some "INVALID_ACTION_TYPE") None))
       else
         Ret (MkResponse 500
                (ErrorBody "Failed to update score" None (Some (message err))))).

(** [GET /api/scores/user/:userId] *)
Definition getScoresUser (userId : string) : Prog Response :=
  try_catch
    (user <- getUserById userId ;;
     match user with
     | None => Ret (MkResponse 404 (ErrorBody "User not found" None None))
     | Some user =>
         sr <- LeaderboardService.getUserScoreAndRank userId ;;
         Ret (MkResponse 200 (UserBody userId (u_username user) (fst sr) (snd sr)))
     end)
    (fun err =>
       Ret (MkResponse 500
              (ErrorBody "Failed to get user score" None (Some (message err))))).

End Routes.

(** * Notions used in the statements *)

Unset Implicit Arguments.
Import LeaderboardService.

(** ** Health of the store and of the cache *)

Definition db_ok (w : World) : Prop := db_fault w = None.
Definition redis_ok (w : World) : Prop := redis_fault w = None.

(** The primary key of [users], and [score_history] rows that belong to
    registered users (the update route checks [getUserById] first). *)
Definition db_wf (d : Db) : Prop :=
  NoDup (map u_id (users d)) /\
  forall h, In h (score_history d) -> In (sh_userId h) (map u_id (users d)).

(** ** The branches of [updateScore] *)

(** [isActionProcessed] *)
Definition processed (d : Db) (actionId : string) : bool :=
  match sql_idempotency d actionId with Some _ => true | None => false end.

(** The catalog value the service accepts for an action type. *)
Definition score_value (d : Db) (actionType : string) : option Z :=
  or_null (sql_action_score_value d actionType).

(** The rows written by an accepted event. *)
Definition history_row (w : World) (userId actionType : string) (v : Z) : ScoreHistory :=
  MkScoreHistory (fresh_uuid (db w)) userId actionType v (clock w).

Definition with_history (w : World) (userId actionType : string) (v : Z) : World :=
  set_db w (set_score_history (db w)
              (score_history (db w) ++ [history_row w userId actionType v])).

Definition with_action (w : World) (userId actionId : string) : World :=
  set_db w (set_idempotency (db w)
              (idempotency (db w) ++ [MkIdempotencyRow actionId userId (clock w)])).

(** The world after an accepted event: both rows, and the key deleted. *)
Definition recorded (w : World) (userId actionId actionType : string) (v : Z) : World :=
  set_redis (with_action (with_history w userId actionType v) userId actionId)
            redis_empty.

Definition user_ids_of (w : World) : list string :=
  map sh_userId (score_history (db w)).

Definition action_ids_of (w : World) : list string :=
  map i_action_id (idempotency (db w)).

(** ** Sequences of requests *)

(** One call of [updateScore], [ms] milliseconds after the previous one. *)
Record Call : Type := MkCall
  { call_after : N; call_userId : string; call_actionId : string;
    call_actionType : string }.

Fixpoint apply_events (calls : list Call) (w : World)
  : World * list (Error + ScoreUpdateResult) :=
  match calls with
  | [] => (w, [])
  | c :: cs =>
      let '(w1, r) :=
        run (updateScore (call_userId c) (call_actionId c) (call_actionType c))
            (advance (call_after c) w) in
      let '(w2, rs) := apply_events cs w1 in
      (w2, r :: rs)
  end.

(** The points the successful answers report for user [U]. *)
Definition awarded (U : string) (rs : list (Error + ScoreUpdateResult)) : Z :=
  sum_Z (map (fun r => match r with
                       | inr res => if String.eqb (res_userId res) U
                                    then res_scoreIncrease res else 0
                       | inl _ => 0
                       end) rs).

(** [getTop10] called again and again, [ms] milliseconds apart, with no
    event in between. *)
Fixpoint poll (delays : list N) (w : World) : list (Error + Top10) :=
  match delays with
  | [] => []
  | ms :: ds =>
      let '(w1, r) := run getTop10 (advance ms w) in
      r :: poll ds w1
  end.

(** ** Programs that never call [emit] *)

Definition is_emit {X : Type} (op : Op X) : bool :=
  match op with
  | IoEmit _ _ _ _ => true
  | _ => false
  end.

Fixpoint no_emit {A : Type} (p : Prog A) : Prop :=
  match p with
  | Vis op k => is_emit op = false /\ forall r, no_emit (k r)
  | _ => True
  end.

(** ** The leaderboard and its cached snapshot *)

(** Decreasing keys. *)
Definition desc {A : Type} (key : A -> Z) (a b : A) : Prop := key b <= key a.

Definition to_member (u : UserScoreRow) : CachedMember :=
  MkCachedMember (r_id u) (r_username u) (r_totalScore u).

(** What [getTop10] hands to [cacheTop10] on a miss. *)
Definition top10_members (d : Db) : list CachedMember :=
  map to_member (firstn 10 (sql_all_users_with_scores d)).

(** The key after [cacheTop10 ms] at instant [now]. *)
Definition cached_redis (now : Timestamp) (ms : list CachedMember) : Redis :=
  match ms with
  | [] => redis_empty
  | _ => redis_expire
           (redis_zadd redis_empty now (CacheService.members_from 0 (firstn 10 ms)))
           now CacheService.TTL
  end.

(** What a client sees of an entry on both paths ([lastUpdated] is
    [undefined] on a cache hit). *)
Definition entry_core (e : Top10Entry) : Z * string * string * Z :=
  (t_rank e, t_userId e, t_username e, t_score e).

(** The first ten rows of [getAllUsersWithScores], numbered from 1. *)
Definition leaderboard (d : Db) : list (Z * string * string * Z) :=
  map_rank (fun u rank => (rank, r_id u, r_username u, r_totalScore u)) 1
           (firstn 10 (sql_all_users_with_scores d)).

(** The key is absent, expired, or holds what the tables give. *)
Definition coherent (w : World) : Prop :=
  forall now, redis_zrange_rev (redis w) now = [] \/
              redis_zrange_rev (redis w) now = top10_members (db w).

(** How many of the [i] entries listed before position [i] have score [s]. *)
Definition ties_above (l : list Top10Entry) (i : nat) (s : Z) : Z :=
  Z.of_nat (List.length (filter (Z.eqb s) (firstn i (map t_score l)))).

(** ** Worlds used in the examples *)

(** The rows inserted by [setupDefaultActions]. *)
Definition defaultActions : list ActionRow :=
  map (fun tv => MkActionRow (fst tv) (fst tv) (snd tv) 0%N)
      [("button_click", 10); ("quest_complete", 50); ("level_up", 100);
       ("achievement", 25); ("milestone", 200); ("daily_challenge", 75)].

Definition user (id : string) : User :=
  MkUser id id (id ++ "@scoreboard.local") 0%N.

(** Two registered users, nothing scored yet, store and cache healthy. *)
Definition world0 : World :=
  {| db := {| users := [user "A"; user "B"]; score_history := [];
              actions := defaultActions; idempotency := [] |};
     db_fault := None;
     redis := redis_empty;
     redis_fault := None;
     clock := 1000%N;
     emitted := [] |}.

(** [world0] after user A's accepted event [e1] ([quest_complete]). *)
Definition world_e1 : World := recorded world0 "A" "e1" "quest_complete" 50.

(** [world_e1] with a catalog row whose value is zero. *)
Definition world_zero : World :=
  set_db world_e1
    {| users := users (db world_e1);
       score_history := score_history (db world_e1);
       actions := actions (db world_e1) ++ [MkActionRow "noop" "noop" 0 0%N];
       idempotency := idempotency (db world_e1) |}.

(** [world_e1] with Redis unreachable. *)
Definition world_redis_down : World :=
  {| db := db world_e1; db_fault := None;
     redis := redis_empty; redis_fault := Some "Redis not connected";
     clock := 2000%N; emitted := [] |}.


(** [world0] with a store that answers four more statements and then
    rejects every statement. *)
Definition world_store_fails : World :=
  set_db_fault world0 (Some (4%nat, "SQLITE_FULL: database or disk is full")).

(** Two requests in flight: both have passed [isActionProcessed] before
    either goes on. *)
Definition overlapping : list bool := [true; false].

(** B scored 200 first, A scored 200 one second later. *)
Definition world_tie : World :=
  fst (apply_events [MkCall 0 "B" "e1" "milestone"; MkCall 1000 "A" "e2" "milestone"]
         world0).

(** The other way round: A scored 200 first, B one second later. *)
Definition world_tie_mirror : World :=
  fst (apply_events [MkCall 0 "A" "e1" "milestone"; MkCall 1000 "B" "e2" "milestone"]
         world0).

(** ** Programs that never insert *)

Definition is_insert {X : Type} (op : Op X) : bool :=
  match op with
  | SqlInsertScoreHistory _ | SqlInsertIdempotency _ => true
  | _ => false
  end.

Fixpoint no_insert {A : Type} (p : Prog A) : Prop :=
  match p with
  | Vis op k => is_insert op = false /\ forall r, no_insert (k r)
  | _ => True
  end.

(** ** Requests in flight *)

(** What one turn of a request does to the tables and the key. *)
Inductive Effect : Type :=
| Nothing
| AddHistory (userId actionType : string) (v : Z)
| AddAction (userId actionId : string)
| DropKey.

Definition do_effect (e : Effect) (w : World) : World :=
  match e with
  | Nothing => w
  | AddHistory u t v => with_history w u t v
  | AddAction u a => with_action w u a
  | DropKey => set_redis w redis_empty
  end.

Definition apply_effects (es : list Effect) (w : World) : World :=
  fold_left (fun w e => do_effect e w) es w.

(** The points an effect gives to user [U]. *)
Definition points (U : string) (e : Effect) : Z :=
  match e with
  | AddHistory u _ v => if String.eqb u U then v else 0
  | _ => 0
  end.

(** One turn of a request: what it needs of the world, and what it does. *)
Record Phase : Type := MkPhase
  { ph_inv : World -> Prop;
    ph_effect : Effect }.

Definition inv_of (phs : list Phase) (w : World) : Prop :=
  match phs with
  | [] => True
  | ph :: _ => ph_inv ph w
  end.

(** [p] goes through the turns [phs] and then returns a value that
    satisfies [post]. *)
Fixpoint follows {A : Type} (post : A -> Prop) (phs : list Phase) (p : Prog A) : Prop :=
  match phs with
  | [] => exists r, p = Ret r /\ post r
  | ph :: phs' =>
      forall w, ph_inv ph w ->
        fst (turn p w) = do_effect (ph_effect ph) w /\
        follows post phs' (snd (turn p w))
  end.

(** Each turn leaves what the next one needs. *)
Fixpoint chain (phs : list Phase) : Prop :=
  match phs with
  | ph :: ((ph' :: _) as rest) =>
      (forall w, ph_inv ph w -> ph_inv ph' (do_effect (ph_effect ph) w)) /\ chain rest
  | _ => True
  end.

(** The turns of [phs] do not disturb what the turns of [phs'] need. *)
Definition stable (phs phs' : list Phase) : Prop :=
  forall ph ph', In ph phs -> In ph' phs' ->
  forall w, ph_inv ph w -> ph_inv ph' w -> ph_inv ph' (do_effect (ph_effect ph) w).

Definition needs_unseen (a t : string) (v : Z) (w : World) : Prop :=
  db_ok w /\ redis_ok w /\ processed (db w) a = false /\ score_value (db w) t = Some v.

Definition needs_health (w : World) : Prop := db_ok w /\ redis_ok w.

(** The turns of an accepted [updateScore]: the three reads, the two
    inserts, the read of the new total, the [DEL], the rank query, and the
    synchronous tail. *)
Definition update_phases (u a t : string) (v : Z) : list Phase :=
  [ MkPhase (needs_unseen a t v) Nothing;
    MkPhase (needs_unseen a t v) Nothing;
    MkPhase (needs_unseen a t v) Nothing;
    MkPhase (needs_unseen a t v) (AddHistory u t v);
    MkPhase (needs_unseen a t v) (AddAction u a);
    MkPhase needs_health Nothing;
    MkPhase needs_health DropKey;
    MkPhase needs_health Nothing;
    MkPhase needs_health Nothing ].

(** The [score_history] rows an effect adds. *)
Definition history_rows (e : Effect) : nat :=
  match e with
  | AddHistory _ _ _ => 1
  | _ => 0
  end.

(** ** Requests served one after another *)

(** The calls of a sequence that are credited, with the catalog value of
    each: the first call of every action id that is not in the idempotency
    table yet, when its action type has a non-zero value in the catalog.
    [seen] holds the action ids credited earlier in the sequence. *)
Fixpoint credited (d : Db) (seen : list string) (calls : list Call)
  : list (Call * Z) :=
  match calls with
  | [] => []
  | c :: cs =>
      if processed d (call_actionId c) || existsb (String.eqb (call_actionId c)) seen
      then credited d seen cs
      else match score_value d (call_actionType c) with
           | Some v => (c, v) :: credited d (call_actionId c :: seen) cs
           | None => credited d seen cs
           end
  end.

(** What a [score_history] row says, apart from its id and timestamp. *)
Definition history_core (h : ScoreHistory) : string * string * Z :=
  (sh_userId h, sh_actionType h, sh_scoreIncrease h).

Definition credit_core (cv : Call * Z) : string * string * Z :=
  (call_userId (fst cv), call_actionType (fst cv), snd cv).

Definition credit_id (cv : Call * Z) : string := call_actionId (fst cv).

(** ** Start-up: [setupDefaultActions] (database.ts) *)

Definition set_actions (d : Db) (l : list ActionRow) : Db :=
  {| users := users d; score_history := score_history d;
     actions := l; idempotency := idempotency d |}.

(** [INSERT OR IGNORE INTO actions ...]: the row is skipped when its [id]
    (primary key) or its [action_type] (UNIQUE) is taken. *)
Definition sql_insert_or_ignore_action (d : Db) (r : ActionRow) : Error + Db :=
  if existsb (fun r' => String.eqb (a_id r') (a_id r)
                        || String.eqb (a_action_type r') (a_action_type r))
             (actions d)
  then inr d
  else inr (set_actions d (actions d ++ [r])).

Module Startup.

Definition defaultActions : list (string * Z) :=
  [("button_click", 10); ("quest_complete", 50); ("level_up", 100);
   ("achievement", 25); ("milestone", 200); ("daily_challenge", 75)].

(** [forEach] sends the six statements at once, each with the [id] and the
    [action_type] set to the type and [created_at] to the current time.  The
    promise is rejected with the first error and resolved when all callbacks
    have run without one; a statement that fails does not stop the others. *)
Definition setupDefaultActions (w : World) : World * (Error + unit) :=
  fold_left
    (fun (st : World * (Error + unit)) (action : string * Z) =>
       let '(w1, res) := st in
       let '(w2, r) :=
         sql w1 (exec (fun d => sql_insert_or_ignore_action d
                        (MkActionRow (fst action) (fst action) (snd action) (clock w)))) in
       (w2, match res with inl e => inl e | inr _ => r end))
    defaultActions (w, inr tt).

End Startup.

(** An [id] of the [actions] table that is taken. *)
Definition action_id_taken (d : Db) (id : string) : bool :=
  existsb (fun r => String.eqb (a_id r) id) (actions d).

(** A database whose catalog was filled by an earlier version of the
    server: [milestone] is worth 500 there, and nothing else is known. *)
Definition world_old_catalog : World :=
  set_db world0 (set_actions (db world0) [MkActionRow "milestone" "milestone" 500 0%N]).

(** * Three ways to sum to n (problem4/index.ts) *)

(** The functions take a JavaScript [number].  They are modelled on the
    integers: on integers of magnitude at most [MAX_SAFE_INTEGER] the
    additions, increments and comparisons of doubles are those of the
    integers as long as the results stay in that range. *)
Module Problem4.

Definition MAX_SAFE_INTEGER : Z := 9007199254740991.

(** [for (let i = 1; i <= n; i++) total += i]; [None] when the loop is
    still running after [fuel] tests of its condition. *)
Fixpoint for_loop (fuel : nat) (n total i : Z) : option Z :=
  match fuel with
  | O => None
  | S fuel' =>
      if i <=? n then for_loop fuel' n (total + i) (i + 1) else Some total
  end.

Definition sum_to_n_a (fuel : nat) (n : Z) : option Z :=
  for_loop fuel n 0 1.

(** [Array.from({ length: n }, (_, i) => i + 1)]: the length of the
    array-like is clamped below at 0, and an array longer than [2^32 - 1]
    cannot be created. *)
Definition array_from_length (n : Z) : Error + list Z :=
  if 4294967295 <? n
  then inl (MkError "Invalid array length")
  else inr (map (fun i => Z.of_nat i + 1) (seq 0 (Z.to_nat n))).

Definition sum_to_n_b (n : Z) : Error + Z :=
  match array_from_length n with
  | inl e => inl e
  | inr arr => inr (fold_left (fun sum num => sum + num) arr 0)
  end.

(** [stack] is the number of frames the call stack has room for. *)
Fixpoint sum_to_n_c (stack : nat) (n : Z) : Error + Z :=
  match stack with
  | O => inl (MkError "Maximum call stack size exceeded")
  | S stack' =>
      if n <=? 0 then inr 0
      else match sum_to_n_c stack' (n - 1) with
           | inl e => inl e
           | inr s => inr (n + s)
           end
  end.

End Problem4.

(** ** Numbers the driver hands over *)

(** The store keeps 64-bit integers; the driver hands them to JavaScript as
    numbers.  An integer is handed over unchanged when it is a safe
    integer. *)
Definition safe_integer (z : Z) : Prop :=
  - Problem4.MAX_SAFE_INTEGER <= z <= Problem4.MAX_SAFE_INTEGER.

(** The magnitudes of all [score_increase] values, added up: a bound on
    every sum the store computes over [score_history]. *)
Definition history_mass (d : Db) : Z :=
  sum_Z (map (fun h => Z.abs (sh_scoreIncrease h)) (score_history d)).

Definition safe_history (d : Db) : Prop :=
  history_mass d <= Problem4.MAX_SAFE_INTEGER.

(** B scored 200; A has no event yet. *)
Definition world_B_ahead : World :=
  fst (apply_events [MkCall 0 "B" "e0" "milestone"] world0).

(** B scored 200, then A scored 50 with action [e1]. *)
Definition world_A_behind : World :=
  fst (apply_events [MkCall 0 "B" "e0" "milestone";
                     MkCall 0 "A" "e1" "quest_complete"] world0).

(** A [getTop10] that has read the tables when an update is served, and
    writes the key after the update has deleted it. *)
Definition refill_after_delete : list bool :=
  [true; true; false; false; false; false; false; false; false; false; false].

(** * Running programs *)

Lemma run_bind {A B : Type} (p : Prog A) (f : A -> Prog B) (w : World) :
  run (bind p f) w =
  match run p w with
  | (w', inr a) => run (f a) w'
  | (w', inl e) => (w', inl e)
  end.
Proof.
  revert w; induction p as [a | e | X op k IH]; intros w; simpl; try reflexivity.
  destruct (handle op w) as [w' r]; apply IH.
Qed.

Lemma run_try_catch {A : Type} (p : Prog A) (h : Error -> Prog A) (w : World) :
  run (try_catch p h) w =
  match run p w with
  | (w', inr a) => (w', inr a)
  | (w', inl e) => run (h e) w'
  end.
Proof.
  revert w; induction p as [a | e | X op k IH]; intros w; simpl; try reflexivity.
  destruct (handle op w) as [w' r]; apply IH.
Qed.

Lemma run_rethrow {A : Type} (p : Prog A) (w : World) :
  run (try_catch p (fun err => Throw err)) w = run p w.
Proof.
  rewrite run_try_catch; destruct (run p w) as [w' [e | a]]; reflexivity.
Qed.

Lemma run_ret {A : Type} (a : A) (w : World) : run (Ret a) w = (w, inr a).
Proof. reflexivity. Qed.

Lemma run_await {X : Type} (op : Op X) (w : World) :
  run (await op) w = handle op w.
Proof.
  unfold await; simpl; destruct (handle op w) as [w' [e | x]]; reflexivity.
Qed.

(** ** A store and a cache that answer *)

Lemma set_db_same (w : World) : set_db w (db w) = w.
Proof. destruct w; reflexivity. Qed.

Lemma sql_query {X : Type} (f : Db -> X) (w : World) :
  db_ok w -> sql w (query f) = (w, inr (f (db w))).
Proof.
  unfold db_ok, sql, query; intros ->; rewrite set_db_same; reflexivity.
Qed.

Lemma sql_exec_ok (f : Db -> Error + Db) (w : World) (d : Db) :
  db_ok w -> f (db w) = inr d -> sql w (exec f) = (set_db w d, inr tt).
Proof.
  unfold db_ok, sql, exec; intros -> ->; reflexivity.
Qed.

Lemma rcmd_ok {X : Type} (cmd : Redis -> Timestamp -> Redis * X) (w : World) :
  redis_ok w ->
  rcmd w cmd = (set_redis w (fst (cmd (redis w) (clock w))),
                inr (snd (cmd (redis w) (clock w)))).
Proof.
  unfold redis_ok, rcmd; intros ->; destruct (cmd (redis w) (clock w)); reflexivity.
Qed.

Lemma rcmd_down {X : Type} (cmd : Redis -> Timestamp -> Redis * X) (w : World)
    (msg : string) :
  redis_fault w = Some msg -> rcmd w cmd = (w, inl (MkError msg)).
Proof. unfold rcmd; intros ->; reflexivity. Qed.

Lemma or_zero_id (x : Z) : or_zero x = x.
Proof. unfold or_zero; destruct (Z.eqb_spec x 0); congruence. Qed.

Lemma sql_user_rank_pos (d : Db) (u : string) : 1 <= sql_user_rank d u.
Proof. unfold sql_user_rank; lia. Qed.

(** database.ts and [getUserRank] on a store that answers: the query's
    value, the world untouched. *)
Section Queries.
Variable w : World.
Hypothesis Hdb : db_ok w.

Lemma run_getUserById (id : string) :
  run (getUserById id) w = (w, inr (sql_user_by_id (db w) id)).
Proof. unfold getUserById; rewrite run_await; simpl; now rewrite sql_query. Qed.

Lemma run_getTotalScore (u : string) :
  run (getTotalScore u) w = (w, inr (sql_total_score (db w) u)).
Proof.
  unfold getTotalScore; rewrite run_bind, run_await; simpl.
  rewrite sql_query by assumption; simpl; now rewrite or_zero_id.
Qed.

Lemma run_isActionProcessed (a : string) :
  run (isActionProcessed a) w =
  (w, inr (match sql_idempotency (db w) a with Some _ => true | None => false end)).
Proof.
  unfold isActionProcessed; rewrite run_bind, run_await; simpl.
  now rewrite sql_query.
Qed.

Lemma run_getActionScoreValue (t : string) :
  run (getActionScoreValue t) w =
  (w, inr (or_null (sql_action_score_value (db w) t))).
Proof.
  unfold getActionScoreValue; rewrite run_bind, run_await; simpl.
  now rewrite sql_query.
Qed.

Lemma run_getUserRank (u : string) :
  run (LeaderboardService.getUserRank u) w = (w, inr (sql_user_rank (db w) u)).
Proof.
  unfold LeaderboardService.getUserRank; rewrite run_bind, run_await; simpl.
  rewrite sql_query by assumption; simpl.
  pose proof (sql_user_rank_pos (db w) u).
  destruct (Z.eqb_spec (sql_user_rank (db w) u) 0); [lia | reflexivity].
Qed.

Lemma run_getAllUsersWithScores :
  run getAllUsersWithScores w = (w, inr (sql_all_users_with_scores (db w))).
Proof.
  unfold getAllUsersWithScores; rewrite run_await; simpl; now rewrite sql_query.
Qed.

Lemma run_getUserScoreAndRank (u : string) :
  run (LeaderboardService.getUserScoreAndRank u) w =
  (w, inr (sql_total_score (db w) u, sql_user_rank (db w) u)).
Proof.
  unfold LeaderboardService.getUserScoreAndRank.
  rewrite run_bind, run_getTotalScore, run_bind, run_getUserRank; reflexivity.
Qed.
End Queries.

(** ** [updateScore], branch by branch *)

Lemma fresh_uuid_fresh (d : Db) :
  existsb (fun h' => Nat.eqb (sh_id h') (fresh_uuid d)) (score_history d) = false.
Proof.
  unfold fresh_uuid.
  assert (G : forall l (m : nat),
             (fold_right Nat.max 0 (map sh_id l) <= m)%nat ->
             existsb (fun h' => Nat.eqb (sh_id h') (S m)) l = false).
  { induction l as [| h l IH]; intros m Hm; simpl in *; [reflexivity |].
    rewrite IH by lia.
    destruct (Nat.eqb_spec (sh_id h) (S m)); [lia | reflexivity]. }
  apply G; lia.
Qed.

Lemma find_none_existsb {A : Type} (f : A -> bool) (l : list A) :
  find f l = None -> existsb f l = false.
Proof.
  induction l as [| x l IH]; simpl; [reflexivity |].
  destruct (f x); [discriminate | exact IH].
Qed.

Lemma processed_false_insert (d : Db) (r : IdempotencyRow) :
  processed d (i_action_id r) = false ->
  sql_insert_idempotency d r = inr (set_idempotency d (idempotency d ++ [r])).
Proof.
  unfold processed, sql_idempotency, sql_insert_idempotency; intros H.
  destruct (find _ (idempotency d)) eqn:E; [discriminate |].
  now rewrite (find_none_existsb _ _ E).
Qed.

Lemma run_updateScore_replay (w : World) (u a t : string) :
  db_ok w -> processed (db w) a = true ->
  run (LeaderboardService.updateScore u a t) w =
  (w, inr (MkScoreUpdateResult u (sql_total_score (db w) u) (sql_total_score (db w) u)
             0 (sql_user_rank (db w) u) (clock w))).
Proof.
  intros Hdb Hp; unfold LeaderboardService.updateScore.
  rewrite run_bind, run_isActionProcessed by assumption.
  fold (processed (db w) a); rewrite Hp.
  rewrite run_bind, run_getTotalScore by assumption.
  rewrite run_bind, run_getUserRank by assumption.
  reflexivity.
Qed.

Lemma run_updateScore_invalid (w : World) (u a t : string) :
  db_ok w -> processed (db w) a = false -> score_value (db w) t = None ->
  run (LeaderboardService.updateScore u a t) w =
  (w, inl (MkError ("Invalid action type: " ++ t))).
Proof.
  intros Hdb Hp Hv; unfold LeaderboardService.updateScore.
  rewrite run_bind, run_isActionProcessed by assumption.
  fold (processed (db w) a); rewrite Hp.
  rewrite run_bind, run_getActionScoreValue by assumption.
  fold (score_value (db w) t); rewrite Hv; reflexivity.
Qed.

Lemma run_updateScore_fresh (w : World) (u a t : string) (v : Z) :
  db_ok w -> redis_ok w ->
  processed (db w) a = false -> score_value (db w) t = Some v ->
  run (LeaderboardService.updateScore u a t) w =
  (recorded w u a t v,
   inr (MkScoreUpdateResult u (sql_total_score (db w) u)
          (sql_total_score (db (recorded w u a t v)) u) v
          (sql_user_rank (db (recorded w u a t v)) u) (clock w))).
Proof.
  intros Hdb Hr Hp Hv; unfold LeaderboardService.updateScore.
  rewrite run_bind, run_isActionProcessed by assumption.
  fold (processed (db w) a); rewrite Hp.
  rewrite run_bind, run_getActionScoreValue by assumption.
  fold (score_value (db w) t); rewrite Hv.
  rewrite run_bind, run_getTotalScore by assumption.
  rewrite run_bind, run_await; simpl handle; cbv beta iota.
  rewrite run_bind, run_await; simpl handle; cbv beta iota.
  (* addScoreHistory *)
  rewrite run_bind; unfold addScoreHistory.
  rewrite run_bind, run_await; simpl handle.
  rewrite (sql_exec_ok (fun d => sql_insert_score_history d _) w
             (db (with_history w u t v)) Hdb)
    by (unfold sql_insert_score_history; simpl sh_id;
        rewrite fresh_uuid_fresh; reflexivity).
  rewrite run_ret; cbv beta iota.
  change (set_db w (db (with_history w u t v))) with (with_history w u t v).
  assert (Hdb1 : db_ok (with_history w u t v)) by exact Hdb.
  (* recordAction *)
  rewrite run_bind; unfold recordAction.
  rewrite run_bind, run_await; simpl handle; cbv beta iota.
  rewrite run_await; simpl handle.
  rewrite (sql_exec_ok (fun d => sql_insert_idempotency d _) _
             (db (with_action (with_history w u t v) u a)) Hdb1)
    by (apply processed_false_insert; exact Hp).
  change (set_db (with_history w u t v) (db (with_action (with_history w u t v) u a)))
    with (with_action (with_history w u t v) u a).
  assert (Hdb2 : db_ok (with_action (with_history w u t v) u a)) by exact Hdb.
  rewrite run_bind, run_getTotalScore by assumption.
  (* invalidateTop10 *)
  rewrite run_bind; unfold CacheService.invalidateTop10.
  rewrite run_await; simpl handle.
  rewrite rcmd_ok by exact Hr; simpl fst; simpl snd.
  fold (recorded w u a t v).
  assert (Hdb3 : db_ok (recorded w u a t v)) by exact Hdb.
  rewrite run_bind, run_getUserRank by assumption.
  reflexivity.
Qed.

(** ** What an accepted event leaves behind *)

Lemma sum_Z_app (l l' : list Z) : sum_Z (l ++ l') = sum_Z l + sum_Z l'.
Proof. unfold sum_Z; induction l as [| x l IH]; simpl; [reflexivity | lia]. Qed.

Lemma db_recorded (w : World) (u a t : string) (v : Z) :
  db (recorded w u a t v) =
  {| users := users (db w);
     score_history := score_history (db w) ++ [history_row w u t v];
     actions := actions (db w);
     idempotency := idempotency (db w) ++ [MkIdempotencyRow a u (clock w)] |}.
Proof. reflexivity. Qed.

Lemma total_recorded (w : World) (u a t : string) (v : Z) (u' : string) :
  sql_total_score (db (recorded w u a t v)) u' =
  sql_total_score (db w) u' + (if String.eqb u u' then v else 0).
Proof.
  rewrite db_recorded; unfold sql_total_score, events_of; simpl score_history.
  rewrite filter_app, map_app, sum_Z_app; f_equal; simpl.
  destruct (String.eqb u u'); simpl; lia.
Qed.

Lemma find_app_here {A : Type} (f : A -> bool) (l : list A) (x : A) :
  f x = true -> exists y, find f (l ++ [x]) = Some y.
Proof.
  intros Hx; induction l as [| z l IH]; simpl.
  - rewrite Hx; eauto.
  - destruct (f z); eauto.
Qed.

Lemma processed_recorded (w : World) (u a t : string) (v : Z) :
  processed (db (recorded w u a t v)) a = true.
Proof.
  rewrite db_recorded; unfold processed, sql_idempotency; simpl idempotency.
  destruct (find_app_here (fun r => String.eqb (i_action_id r) a)
              (idempotency (db w)) (MkIdempotencyRow a u (clock w))) as [y ->];
    [apply String.eqb_refl | reflexivity].
Qed.

Lemma processed_In (d : Db) (r : IdempotencyRow) :
  In r (idempotency d) -> processed d (i_action_id r) = true.
Proof.
  unfold processed, sql_idempotency; intros H.
  destruct (find _ (idempotency d)) eqn:E; [reflexivity |].
  apply (find_none _ _ E) in H; rewrite String.eqb_refl in H; discriminate.
Qed.

Lemma find_none_filter {A : Type} (f : A -> bool) (l : list A) :
  find f l = None -> filter f l = [].
Proof.
  induction l as [| x l IH]; simpl; [reflexivity |].
  destruct (f x); [discriminate | exact IH].
Qed.

Lemma processed_false_no_row (d : Db) (a : string) :
  processed d a = false ->
  filter (fun r => String.eqb (i_action_id r) a) (idempotency d) = [].
Proof.
  unfold processed, sql_idempotency; intros H; apply find_none_filter.
  destruct (find _ (idempotency d)); [discriminate | reflexivity].
Qed.

(** ** Ranks and safe integers *)

Lemma sql_user_rank_count (d : Db) (u : string) :
  sql_user_rank d u =
  1 + Z.of_nat (List.length
        (filter (fun g => sql_total_score d u <? sql_total_score d g)
                (nodup string_dec (map sh_userId (score_history d))))).
Proof. unfold sql_user_rank, history_user_ids; apply Z.add_comm. Qed.

Lemma total_le_mass (d : Db) (U : string) :
  Z.abs (sql_total_score d U) <= history_mass d.
Proof.
  unfold sql_total_score, events_of, history_mass.
  induction (score_history d) as [| h l IH]; cbn [filter map sum_Z fold_right].
  - reflexivity.
  - fold (sum_Z (map (fun h => Z.abs (sh_scoreIncrease h)) l)).
    destruct (String.eqb (sh_userId h) U); cbn [map sum_Z fold_right];
      fold (sum_Z (map sh_scoreIncrease (filter (fun h => String.eqb (sh_userId h) U) l)));
      lia.
Qed.

Lemma safe_total (d : Db) (U : string) :
  safe_history d -> safe_integer (sql_total_score d U).
Proof.
  unfold safe_history, safe_integer; intros H.
  pose proof (total_le_mass d U); lia.
Qed.

Lemma mass_recorded (w : World) (u a t : string) (v : Z) :
  history_mass (db (recorded w u a t v)) = history_mass (db w) + Z.abs v.
Proof.
  rewrite db_recorded; unfold history_mass; cbn [score_history].
  rewrite map_app, sum_Z_app; cbn; lia.
Qed.

(** * Claims about [updateScore] *)

(** C4. [updateScore] is idempotent in [actionId].  On a store that answers,
    a call whose [actionId] is already in the idempotency table leaves the
    whole world as it was (tables, Redis key, socket.io log) and returns the
    user's current total as both [previousScore] and [newScore],
    [scoreIncrease = 0] and the user's current rank: 1 plus the number of
    users with events whose total is strictly greater.  When an unseen
    [actionId] with an accepted action type is sent twice in a row, the
    first call adds exactly one [score_history] row and one idempotency row
    and returns the total and the rank of the tables it leaves; the second
    adds nothing and returns the same [newScore] and [rank]. *)
Theorem updateScore_idempotent (w : World) (u a t : string) (ms : N) :
  db_ok w ->
  (processed (db w) a = true ->
   run (updateScore u a t) w =
   (w, inr (MkScoreUpdateResult u (sql_total_score (db w) u) (sql_total_score (db w) u)
              0
              (1 + Z.of_nat (List.length
                     (filter (fun g => sql_total_score (db w) u <? sql_total_score (db w) g)
                             (nodup string_dec (user_ids_of w)))))
              (clock w))))
  /\
  (redis_ok w -> processed (db w) a = false ->
   forall v, score_value (db w) t = Some v ->
   exists w1 r1 r2 h,
     run (updateScore u a t) w = (w1, inr r1) /\
     run (updateScore u a t) (advance ms w1) = (advance ms w1, inr r2) /\
     res_newScore r2 = res_newScore r1 /\
     res_rank r2 = res_rank r1 /\
     res_previousScore r2 = res_newScore r1 /\
     res_scoreIncrease r2 = 0 /\
     res_newScore r1 = sql_total_score (db w1) u /\
     res_rank r1 =
       1 + Z.of_nat (List.length
             (filter (fun g => sql_total_score (db w1) u <? sql_total_score (db w1) g)
                     (nodup string_dec (user_ids_of w1)))) /\
     score_history (db w1) = (score_history (db w) ++ [h])%list /\
     sh_userId h = u /\ sh_scoreIncrease h = v /\
     List.length (filter (fun r => String.eqb (i_action_id r) a)
                    (idempotency (db w1))) = 1%nat).
Proof.
  intros Hdb; split.
  - intros Hp; rewrite run_updateScore_replay by assumption.
    now rewrite sql_user_rank_count.
  - intros Hr Hp v Hv.
    exists (recorded w u a t v).
    eexists; eexists; exists (history_row w u t v).
    split; [apply run_updateScore_fresh; assumption |].
    split.
    { apply run_updateScore_replay; [exact Hdb |].
      apply processed_recorded. }
    cbn [res_newScore res_rank res_previousScore res_scoreIncrease].
    split; [reflexivity |]. split; [reflexivity |]. split; [reflexivity |].
    split; [reflexivity |]. split; [reflexivity |].
    split; [apply sql_user_rank_count |].
    split; [reflexivity |]. split; [reflexivity |]. split; [reflexivity |].
    rewrite db_recorded; cbn [idempotency].
    rewrite filter_app, processed_false_no_row by exact Hp.
    simpl; now rewrite String.eqb_refl.
Qed.

Lemma updateScore_idempotent_witness :
  run (updateScore "A" "e1" "quest_complete") world_A_behind =
  (world_A_behind, inr (MkScoreUpdateResult "A" 50 50 0 2 1000%N)) /\
  exists w1 r1 r2 h,
    run (updateScore "A" "e1" "quest_complete") world_B_ahead = (w1, inr r1) /\
    run (updateScore "A" "e1" "quest_complete") (advance 5 w1) = (advance 5 w1, inr r2) /\
    res_newScore r2 = res_newScore r1 /\
    res_rank r2 = res_rank r1 /\
    res_previousScore r2 = res_newScore r1 /\
    res_scoreIncrease r2 = 0 /\
    res_newScore r1 = sql_total_score (db w1) "A" /\
    res_rank r1 =
      1 + Z.of_nat (List.length
            (filter (fun g => sql_total_score (db w1) "A" <? sql_total_score (db w1) g)
                    (nodup string_dec (user_ids_of w1)))) /\
    score_history (db w1) = (score_history (db world_B_ahead) ++ [h])%list /\
    sh_userId h = "A" /\ sh_scoreIncrease h = 50 /\
    List.length (filter (fun r => String.eqb (i_action_id r) "e1")
                   (idempotency (db w1))) = 1%nat.
Proof.
  split.
  - exact (proj1 (updateScore_idempotent world_A_behind "A" "e1" "quest_complete" 0
                    eq_refl) eq_refl).
  - exact (proj2 (updateScore_idempotent world_B_ahead "A" "e1" "quest_complete" 5
                    eq_refl) eq_refl eq_refl 50 eq_refl).
Defined.

(** C9. The idempotency check looks at [actionId] alone.  If the table
    holds [actionId] for user A, a call for any user B with that [actionId]
    records nothing (the world is unchanged) and succeeds with B's own
    total as [previousScore] and [newScore], [scoreIncrease = 0] and B's
    rank. *)
Theorem updateScore_replay_ignores_user (w : World) (userA userB a t : string)
    (ts : Timestamp) :
  db_ok w ->
  In (MkIdempotencyRow a userA ts) (idempotency (db w)) ->
  run (updateScore userB a t) w =
  (w, inr (MkScoreUpdateResult userB
             (sql_total_score (db w) userB) (sql_total_score (db w) userB)
             0 (sql_user_rank (db w) userB) (clock w))).
Proof.
  intros Hdb Hin; apply run_updateScore_replay; [exact Hdb |].
  exact (processed_In (db w) _ Hin).
Qed.

Lemma updateScore_replay_ignores_user_witness :
  run (updateScore "B" "e1" "milestone") world_e1 =
  (world_e1, inr (MkScoreUpdateResult "B" 0 0 0 2 1000%N)).
Proof.
  apply (updateScore_replay_ignores_user world_e1 "A" "B" "e1" "milestone" 1000%N).
  - reflexivity.
  - simpl; left; reflexivity.
Defined.

Lemma includes_invalid_action_type (t : string) :
  includes ("Invalid action type: " ++ t) "Invalid action type" = true.
Proof. reflexivity. Qed.

(** The update route around a rejected action type. *)
Lemma run_postScoresUpdate_invalid (w : World) (u a t : string) (usr : User) :
  db_ok w -> u <> "" -> a <> "" -> t <> "" ->
  sql_user_by_id (db w) u = Some usr ->
  processed (db w) a = false -> score_value (db w) t = None ->
  run (Routes.postScoresUpdate (Some u) (JsString a) (JsString t)) w =
  (w, inr (MkResponse 400
             (ErrorBody ("Invalid action type: " ++ t)
                (Some "INVALID_ACTION_TYPE") None))).
Proof.
  intros Hdb Hu Ha Ht Husr Hp Hv.
  unfold Routes.postScoresUpdate; rewrite run_try_catch.
  destruct u as [| c u']; [congruence |].
  simpl truthy.
  destruct (String.eqb_spec a ""); [congruence |].
  destruct (String.eqb_spec t ""); [congruence |].
  simpl negb; simpl orb; cbv iota.
  rewrite run_bind, run_getUserById, Husr by assumption.
  rewrite run_bind, run_updateScore_invalid by assumption.
  cbn [message]; rewrite includes_invalid_action_type; reflexivity.
Qed.

(** C5, as stated, fails: [e1] is already processed, [no_such_action] is
    not in the catalog, and the call succeeds with the replay answer. *)
Lemma unknown_action_replayed_succeeds :
  sql_action_score_value (db world_e1) "no_such_action" = None /\
  processed (db world_e1) "e1" = true /\
  run (updateScore "A" "e1" "no_such_action") world_e1 =
  (world_e1, inr (MkScoreUpdateResult "A" 50 50 0 1 1000%N)) /\
  run (Routes.postScoresUpdate (Some "A") (JsString "e1") (JsString "no_such_action"))
      world_e1 =
  (world_e1, inr (MkResponse 200 (UpdateBody (MkScoreUpdateResult "A" 50 50 0 1 1000%N)))).
Proof. repeat split. Qed.

(** C5, amended.  On a store that answers, a call whose action type has no
    catalog row and whose [actionId] is not yet processed throws
    [Invalid action type: ...] and leaves the world unchanged; the update
    route answers 400 with code [INVALID_ACTION_TYPE].  A call whose
    [actionId] is already processed returns the replay answer, whatever its
    action type. *)
Theorem updateScore_unknown_action (w : World) (u a t : string) :
  db_ok w ->
  sql_action_score_value (db w) t = None ->
  (processed (db w) a = false ->
   run (updateScore u a t) w = (w, inl (MkError ("Invalid action type: " ++ t))) /\
   forall usr, u <> "" -> a <> "" -> t <> "" ->
     sql_user_by_id (db w) u = Some usr ->
     run (Routes.postScoresUpdate (Some u) (JsString a) (JsString t)) w =
     (w, inr (MkResponse 400
                (ErrorBody ("Invalid action type: " ++ t)
                   (Some "INVALID_ACTION_TYPE") None))))
  /\
  (processed (db w) a = true ->
   run (updateScore u a t) w =
   (w, inr (MkScoreUpdateResult u (sql_total_score (db w) u) (sql_total_score (db w) u)
              0 (sql_user_rank (db w) u) (clock w)))).
Proof.
  intros Hdb Hrow.
  assert (Hv : score_value (db w) t = None) by (unfold score_value; now rewrite Hrow).
  split.
  - intros Hp; split.
    + now apply run_updateScore_invalid.
    + intros usr Hu Ha Ht Husr.
      now apply (run_postScoresUpdate_invalid w u a t usr).
  - intros Hp; now apply run_updateScore_replay.
Qed.

Lemma updateScore_unknown_action_witness :
  run (updateScore "A" "e2" "no_such_action") world_e1 =
  (world_e1, inl (MkError "Invalid action type: no_such_action")).
Proof.
  exact (proj1 (proj1 (updateScore_unknown_action world_e1 "A" "e2" "no_such_action"
                         eq_refl eq_refl) eq_refl)).
Defined.

(** C10, as stated, fails for the same reason: [noop] is worth 0 points,
    [e1] is already processed, and the call succeeds. *)
Lemma zero_valued_action_replayed_succeeds :
  sql_action_score_value (db world_zero) "noop" = Some 0 /\
  processed (db world_zero) "e1" = true /\
  run (updateScore "A" "e1" "noop") world_zero =
  (world_zero, inr (MkScoreUpdateResult "A" 50 50 0 1 1000%N)).
Proof. repeat split. Qed.

(** C10, amended.  A catalog value of 0 is treated exactly as a missing
    row: [getActionScoreValue] resolves to [null] for it, so on a store
    that answers a call whose [actionId] is not yet processed throws
    [Invalid action type: ...] and records nothing (the world is
    unchanged).  A call whose [actionId] is already processed takes the
    replay branch before the catalog is read. *)
Theorem updateScore_zero_valued_action (w : World) (u a t : string) :
  db_ok w ->
  sql_action_score_value (db w) t = Some 0 ->
  run (getActionScoreValue t) w = (w, inr None) /\
  (processed (db w) a = false ->
   run (updateScore u a t) w = (w, inl (MkError ("Invalid action type: " ++ t))))
  /\
  (processed (db w) a = true ->
   run (updateScore u a t) w =
   (w, inr (MkScoreUpdateResult u (sql_total_score (db w) u) (sql_total_score (db w) u)
              0 (sql_user_rank (db w) u) (clock w)))).
Proof.
  intros Hdb Hrow.
  assert (Hv : score_value (db w) t = None) by (unfold score_value; now rewrite Hrow).
  split; [| split].
  - rewrite run_getActionScoreValue by assumption; now rewrite Hrow.
  - intros Hp; now apply run_updateScore_invalid.
  - intros Hp; now apply run_updateScore_replay.
Qed.

Lemma updateScore_zero_valued_action_witness :
  run (updateScore "A" "e2" "noop") world_zero =
  (world_zero, inl (MkError "Invalid action type: noop")).
Proof.
  exact (proj1 (proj2 (updateScore_zero_valued_action world_zero "A" "e2" "noop"
                         eq_refl eq_refl)) eq_refl).
Defined.

(** ** A sequence of calls *)

Lemma updateScore_step (w : World) (u a t U : string) :
  db_ok w -> redis_ok w ->
  db_ok (fst (run (updateScore u a t) w)) /\
  redis_ok (fst (run (updateScore u a t) w)) /\
  sql_total_score (db (fst (run (updateScore u a t) w))) U =
  sql_total_score (db w) U + awarded U [snd (run (updateScore u a t) w)].
Proof.
  intros Hdb Hr.
  destruct (processed (db w) a) eqn:Hp.
  - rewrite run_updateScore_replay by assumption; unfold awarded; simpl.
    repeat split; try assumption. destruct (String.eqb u U); lia.
  - destruct (score_value (db w) t) as [v |] eqn:Hv.
    + rewrite (run_updateScore_fresh w u a t v) by assumption.
      unfold awarded; simpl fst; simpl snd.
      repeat split; try assumption.
      rewrite total_recorded; simpl. destruct (String.eqb u U); lia.
    + rewrite run_updateScore_invalid by assumption; unfold awarded; simpl.
      repeat split; try assumption. lia.
Qed.

Lemma apply_events_total (calls : list Call) (U : string) :
  forall w, db_ok w -> redis_ok w ->
  db_ok (fst (apply_events calls w)) /\
  sql_total_score (db (fst (apply_events calls w))) U =
  sql_total_score (db w) U + awarded U (snd (apply_events calls w)).
Proof.
  induction calls as [| c cs IH]; intros w Hdb Hr; cbn [apply_events].
  - unfold awarded; simpl; split; [assumption | lia].
  - destruct (updateScore_step (advance (call_after c) w)
                (call_userId c) (call_actionId c) (call_actionType c) U Hdb Hr)
      as (Hdb1 & Hr1 & Htot).
    destruct (run _ (advance (call_after c) w)) as [w1 r]; cbn [fst snd] in *.
    destruct (IH w1 Hdb1 Hr1) as (Hdb2 & Htot2).
    destruct (apply_events cs w1) as [w2 rs]; cbn [fst snd] in *.
    split; [assumption |].
    rewrite Htot2, Htot; unfold awarded; simpl; lia.
Qed.

(** C6. Whatever calls of [updateScore] were served before, on a store that
    answers [getUserScoreAndRank U] returns as score the sum of
    [score_increase] over the [score_history] rows of [U]: nothing else is
    stored.  That sum is the total before the calls plus the increases the
    accepted calls of [U] reported, and it is 0 for a user without rows.
    The score is a JavaScript number: this is stated for tables whose
    [score_increase] values add up, in magnitude, to a safe integer, so that
    every value and every sum read along the way is handed over unchanged;
    the score is then a safe integer itself. *)
Theorem getUserScoreAndRank_sums_history (w : World) (calls : list Call) (U : string) :
  db_ok w -> redis_ok w ->
  let w' := fst (apply_events calls w) in
  let score := sum_Z (map sh_scoreIncrease (events_of (db w') U)) in
  safe_history (db w') ->
  run (getUserScoreAndRank U) w' = (w', inr (score, sql_user_rank (db w') U)) /\
  score = sum_Z (map sh_scoreIncrease (events_of (db w) U))
          + awarded U (snd (apply_events calls w)) /\
  (events_of (db w') U = [] -> score = 0) /\
  safe_integer score.
Proof.
  intros Hdb Hr w' score Hsafe.
  destruct (apply_events_total calls U w Hdb Hr) as (Hdb' & Htot).
  split; [| split; [| split]].
  - now rewrite run_getUserScoreAndRank.
  - exact Htot.
  - subst score; intros ->; reflexivity.
  - exact (safe_total (db w') U Hsafe).
Qed.

Lemma getUserScoreAndRank_sums_history_witness :
  let calls := [MkCall 0 "A" "e1" "quest_complete"; MkCall 5 "A" "e1" "quest_complete";
                MkCall 5 "B" "e2" "milestone"; MkCall 5 "A" "e3" "achievement";
                MkCall 5 "A" "e4" "no_such_action"] in
  let w' := fst (apply_events calls world0) in
  run (getUserScoreAndRank "A") w' = (w', inr (75, 2)).
Proof.
  refine (proj1 (getUserScoreAndRank_sums_history world0
     [MkCall 0 "A" "e1" "quest_complete"; MkCall 5 "A" "e1" "quest_complete";
      MkCall 5 "B" "e2" "milestone"; MkCall 5 "A" "e3" "achievement";
      MkCall 5 "A" "e4" "no_such_action"] "A" eq_refl eq_refl _)).
  apply Z.leb_le; vm_compute; reflexivity.
Defined.

(** * Claims about the cache and the broadcast *)





(** ** Programs that never call [emit] *)

Lemma sql_emitted {X : Type} (w : World) (stmt : Db -> Error + (Db * X)) :
  emitted (fst (sql w stmt)) = emitted w.
Proof.
  unfold sql; destruct (db_fault w) as [[[| n] msg] |];
    try reflexivity; destruct (stmt (db w)) as [e | [d x]]; reflexivity.
Qed.

Lemma rcmd_emitted {X : Type} (w : World) (cmd : Redis -> Timestamp -> Redis * X) :
  emitted (fst (rcmd w cmd)) = emitted w.
Proof.
  unfold rcmd; destruct (redis_fault w); [reflexivity |].
  destruct (cmd (redis w) (clock w)); reflexivity.
Qed.

Lemma handle_emitted {X : Type} (op : Op X) (w : World) :
  is_emit op = false -> emitted (fst (handle op w)) = emitted w.
Proof.
  destruct op; simpl; intros H;
    try apply sql_emitted; try apply rcmd_emitted; try reflexivity; discriminate.
Qed.

Lemma run_no_emit {A : Type} (p : Prog A) :
  no_emit p -> forall w, emitted (fst (run p w)) = emitted w.
Proof.
  induction p as [a | e | X op k IH]; simpl; intros H w; try reflexivity.
  destruct H as [Hop Hk].
  pose proof (handle_emitted op w Hop) as Hh.
  destruct (handle op w) as [w' r]; simpl in Hh.
  rewrite IH by apply Hk; exact Hh.
Qed.

Lemma no_emit_bind {A B : Type} (p : Prog A) (f : A -> Prog B) :
  no_emit p -> (forall a, no_emit (f a)) -> no_emit (bind p f).
Proof.
  intros Hp Hf; induction p as [a | e | X op k IH]; simpl in *; auto.
  destruct Hp as [Hop Hk]; split; auto.
Qed.

Lemma no_emit_try_catch {A : Type} (p : Prog A) (h : Error -> Prog A) :
  no_emit p -> (forall e, no_emit (h e)) -> no_emit (try_catch p h).
Proof.
  intros Hp Hh; induction p as [a | e | X op k IH]; simpl in *; auto.
  destruct Hp as [Hop Hk]; split; auto.
Qed.

Lemma no_emit_await {X : Type} (op : Op X) :
  is_emit op = false -> no_emit (await op).
Proof. intros H; simpl; split; [exact H | intros [e | x]; exact I]. Qed.

Ltac no_emit_step :=
  match goal with
  | |- no_emit (bind _ _) => apply no_emit_bind; [| intros ?]
  | |- no_emit (try_catch _ _) => apply no_emit_try_catch; [| intros ?]
  | |- no_emit (await _) => apply no_emit_await; reflexivity
  | |- no_emit (Ret _) => exact I
  | |- no_emit (Throw _) => exact I
  | |- no_emit (match ?x with _ => _ end) => destruct x
  | |- no_emit (if ?x then _ else _) => destruct x
  end.

Lemma no_emit_updateScore (u a t : string) : no_emit (updateScore u a t).
Proof.
  unfold updateScore, isActionProcessed, getTotalScore, getUserRank,
    getActionScoreValue, addScoreHistory, recordAction,
    CacheService.invalidateTop10.
  repeat no_emit_step.
Qed.

Lemma no_emit_postScoresUpdate (userId : option string) (actionId actionType : JsValue) :
  no_emit (Routes.postScoresUpdate userId actionId actionType).
Proof.
  unfold Routes.postScoresUpdate, getUserById.
  repeat (first [apply no_emit_updateScore | no_emit_step]).
Qed.

(** What one call of [broadcastScoreUpdate] would add to the socket.io log. *)
Lemma run_broadcastScoreUpdate (data : ScoreUpdateResult) (w : World) :
  run (broadcastScoreUpdate data) w =
  (set_emitted w (emitted w ++ [MkEmitted "scoreboard" "score_updated" data (clock w)]),
   inr tt).
Proof. reflexivity. Qed.

(** C8 fails on the code: no path of [POST /api/scores/update] calls
    [broadcastScoreUpdate].  Whatever the request and the world, the
    socket.io log after the request is the log before it; in particular the
    accepted, non-replayed event [e1] of user A is answered 200 with
    [newScore = 50] and nothing is emitted. *)
Theorem postScoresUpdate_never_emits :
  (forall (w : World) (userId : option string) (actionId actionType : JsValue),
     emitted (fst (run (Routes.postScoresUpdate userId actionId actionType) w))
     = emitted w) /\
  run (Routes.postScoresUpdate (Some "A") (JsString "e1") (JsString "quest_complete"))
      world0 =
  (world_e1, inr (MkResponse 200 (UpdateBody (MkScoreUpdateResult "A" 0 50 50 1 1000%N)))) /\
  emitted world_e1 = [].
Proof.
  split; [| split; reflexivity].
  intros w userId actionId actionType.
  apply run_no_emit, no_emit_postScoresUpdate.
Qed.

(** * The two inserts of [updateScore] *)

(** C1 fails on the code: [addScoreHistory] and [recordAction] are two
    separate statements, with no transaction around them.
    - If the store fails between them, the call rejects and leaves the
      [score_history] row without its idempotency row; once the store is
      back, the retry of the same [actionId] is accepted and counted again.
    - If two requests with the same [actionId] overlap, both insert a
      [score_history] row; the second [recordAction] hits the primary key,
      so one idempotency row stands for two score rows. *)
Theorem updateScore_inserts_not_atomic :
  (let w1 := fst (run (updateScore "A" "e1" "quest_complete") world_store_fails) in
   snd (run (updateScore "A" "e1" "quest_complete") world_store_fails) =
     inl (MkError "SQLITE_FULL: database or disk is full") /\
   user_ids_of w1 = ["A"] /\
   action_ids_of w1 = [] /\
   processed (db w1) "e1" = false /\
   let retry := run (updateScore "A" "e1" "quest_complete") (set_db_fault w1 None) in
   option_map res_newScore
     (match snd retry with inr r => Some r | inl _ => None end) = Some 100)
  /\
  (let '(w2, r1, r2) :=
     interleave overlapping (updateScore "A" "e1" "quest_complete")
       (updateScore "A" "e1" "quest_complete") world0 in
   user_ids_of w2 = ["A"; "A"] /\
   action_ids_of w2 = ["e1"] /\
   sql_total_score (db w2) "A" = 100 /\
   option_map res_newScore (match r1 with inr r => Some r | inl _ => None end)
     = Some 50 /\
   r2 = inl (MkError "SQLITE_CONSTRAINT: UNIQUE constraint failed: idempotency.action_id")).
Proof. vm_compute. repeat split. Qed.

(** * [ORDER BY ... DESC] *)

Section OrderByFacts.
Context {A : Type} (key : A -> Z).

Lemma insert_desc_perm (x : A) (l : list A) :
  Permutation (insert_desc key x l) (x :: l).
Proof.
  induction l as [| y l IH]; simpl; [reflexivity |].
  destruct (key x <? key y); [| reflexivity].
  rewrite IH; apply perm_swap.
Qed.

Lemma order_by_desc_perm (l : list A) : Permutation (order_by_desc key l) l.
Proof.
  induction l as [| x l IH]; simpl; [reflexivity |].
  rewrite insert_desc_perm; now constructor.
Qed.

Lemma insert_desc_sorted (x : A) (l : list A) :
  StronglySorted (desc key) l -> StronglySorted (desc key) (insert_desc key x l).
Proof.
  induction 1 as [| y l Hs IH Hy]; simpl.
  - repeat constructor.
  - destruct (Z.ltb_spec (key x) (key y)) as [Hlt | Hge].
    + constructor; [exact IH |].
      apply (Permutation_Forall (x := x :: l)).
      * symmetry; apply insert_desc_perm.
      * constructor; [unfold desc; lia | exact Hy].
    + constructor; [now constructor |].
      constructor; [exact Hge |].
      eapply Forall_impl; [| exact Hy].
      unfold desc; intros; lia.
Qed.

Lemma order_by_desc_sorted (l : list A) : StronglySorted (desc key) (order_by_desc key l).
Proof.
  induction l as [| x l IH]; simpl; [constructor | now apply insert_desc_sorted].
Qed.

(** Rows with the same key keep the order in which they arrived. *)
Lemma order_by_desc_stable (k : Z) (l : list A) :
  filter (fun a => key a =? k) (order_by_desc key l) = filter (fun a => key a =? k) l.
Proof.
  induction l as [| x l IH]; simpl; [reflexivity |].
  rewrite <- IH; generalize (order_by_desc key l) as s; clear IH.
  induction s as [| y s IHs]; simpl; [reflexivity |].
  destruct (Z.ltb_spec (key x) (key y)) as [Hlt | Hge]; simpl; [| reflexivity].
  rewrite IHs.
  destruct (Z.eqb_spec (key x) k), (Z.eqb_spec (key y) k); try reflexivity; lia.
Qed.

(** A list that is already in order is returned as it is. *)
Lemma order_by_desc_id (l : list A) :
  StronglySorted (desc key) l -> order_by_desc key l = l.
Proof.
  induction 1 as [| x l Hs IH Hx]; simpl; [reflexivity |].
  rewrite IH; destruct l as [| y l]; simpl; [reflexivity |].
  inversion Hx as [| ? ? Hy _]; subst; unfold desc in Hy.
  destruct (Z.ltb_spec (key x) (key y)); [lia | reflexivity].
Qed.

(** In a list in order, the rows strictly above the row at position [i]
    are the [i] rows before it, less those that tie with it. *)
Lemma count_above_sorted (s : list A) :
  StronglySorted (desc key) s ->
  forall (i : nat) (x : A), nth_error s i = Some x ->
  Nat.add (List.length (filter (fun a => key x <? key a) s))
          (List.length (filter (fun a => key a =? key x) (firstn i s))) = i.
Proof.
  induction 1 as [| a s Hs IH Ha]; intros i x Hi.
  - destruct i; discriminate.
  - destruct i as [| j]; simpl in Hi.
    + injection Hi as ->; simpl.
      rewrite Z.ltb_irrefl.
      assert (E : filter (fun a => key x <? key a) s = []).
      { clear IH Hs; induction s as [| b s IHs]; simpl; [reflexivity |].
        inversion Ha as [| ? ? Hb Hrest]; subst; unfold desc in Hb.
        destruct (Z.ltb_spec (key x) (key b)); [lia | now apply IHs]. }
      now rewrite E.
    + specialize (IH j x Hi).
      assert (Hax : key x <= key a).
      { rewrite Forall_forall in Ha; apply Ha.
        eapply nth_error_In; exact Hi. }
      simpl.
      destruct (Z.ltb_spec (key x) (key a)), (Z.eqb_spec (key a) (key x));
        simpl; lia.
Qed.
End OrderByFacts.

Lemma filter_length_perm {A : Type} (f : A -> bool) (l l' : list A) :
  Permutation l l' -> List.length (filter f l) = List.length (filter f l').
Proof.
  induction 1 as [| x l l' _ IH | x y l | l l' l'' _ IH1 _ IH2]; simpl.
  - reflexivity.
  - destruct (f x); simpl; now rewrite IH.
  - destruct (f x), (f y); reflexivity.
  - now rewrite IH1.
Qed.

Lemma filter_map_length {A B : Type} (g : A -> B) (f : B -> bool) (l : list A) :
  List.length (filter f (map g l)) = List.length (filter (fun a => f (g a)) l).
Proof.
  induction l as [| x l IH]; simpl; [reflexivity |].
  destruct (f (g x)); simpl; now rewrite IH.
Qed.

(** * The two ranks *)

Lemma total_nonzero_has_events (d : Db) (g : string) :
  sql_total_score d g <> 0 -> In g (map sh_userId (score_history d)).
Proof.
  unfold sql_total_score; intros H.
  destruct (events_of d g) as [| h l] eqn:E; [now elim H |].
  assert (Hin : In h (events_of d g)) by (rewrite E; now left).
  unfold events_of in Hin; apply filter_In in Hin as [Hin Hg].
  apply String.eqb_eq in Hg; subst g; now apply in_map.
Qed.

(** Above a non-negative total, the groups of [score_history] and the
    registered users count the same. *)
Lemma count_groups_eq_users (d : Db) (t : Z) :
  db_wf d -> 0 <= t ->
  List.length (filter (fun g => t <? sql_total_score d g) (history_user_ids d)) =
  List.length (filter (fun r => t <? r_totalScore r) (map (user_score_row d) (users d))).
Proof.
  intros [Hnd Hfk] Ht.
  rewrite filter_map_length; simpl r_totalScore.
  rewrite <- (filter_map_length u_id (fun g => t <? sql_total_score d g)).
  apply Permutation_length, NoDup_Permutation.
  - apply NoDup_filter, NoDup_nodup.
  - now apply NoDup_filter.
  - intros g; rewrite !filter_In; unfold history_user_ids; rewrite nodup_In.
    split; intros [Hin Hg]; (split; [| exact Hg]).
    + apply in_map_iff in Hin as (h & <- & Hh); now apply Hfk.
    + apply total_nonzero_has_events.
      apply Z.ltb_lt in Hg; lia.
Qed.

Lemma row_total (d : Db) (x : UserScoreRow) :
  In x (sql_all_users_with_scores d) -> r_totalScore x = sql_total_score d (r_id x).
Proof.
  intros Hin; unfold sql_all_users_with_scores in Hin.
  apply (Permutation_in _ (order_by_desc_perm r_totalScore _)) in Hin.
  apply in_map_iff in Hin as (u & <- & _); reflexivity.
Qed.

(** [getUserRank] against the position in [getAllUsersWithScores]. *)
Lemma sql_user_rank_sorted (d : Db) (i : nat) (x : UserScoreRow) :
  db_wf d ->
  nth_error (sql_all_users_with_scores d) i = Some x ->
  0 <= r_totalScore x ->
  sql_user_rank d (r_id x) =
  Z.of_nat i + 1
  - Z.of_nat (List.length (filter (fun a => r_totalScore a =? r_totalScore x)
                             (firstn i (sql_all_users_with_scores d)))).
Proof.
  intros Hwf Hi Hx.
  pose proof (row_total d x (nth_error_In _ _ Hi)) as Htot.
  unfold sql_user_rank; rewrite <- Htot.
  rewrite (count_groups_eq_users d (r_totalScore x) Hwf Hx).
  rewrite <- (filter_length_perm _ _ _
                (order_by_desc_perm r_totalScore (map (user_score_row d) (users d)))).
  fold (sql_all_users_with_scores d).
  pose proof (count_above_sorted r_totalScore (sql_all_users_with_scores d)
                (order_by_desc_sorted r_totalScore _) i x Hi) as Hc.
  lia.
Qed.

(** * The cached snapshot *)

Lemma set_redis_same (w : World) : set_redis w (redis w) = w.
Proof. destruct w; reflexivity. Qed.

Lemma member_eqb_eq (a b : CachedMember) : member_eqb a b = true -> a = b.
Proof.
  destruct a, b; unfold member_eqb; simpl; intros H.
  apply andb_prop in H as [H H3]; apply andb_prop in H as [H1 H2].
  apply String.eqb_eq in H1, H2; apply Z.eqb_eq in H3; congruence.
Qed.

Lemma zadd1_new (acc : list (Z * CachedMember)) (m : Z * CachedMember) :
  ~ In (snd m) (map snd acc) -> zadd1 acc m = (acc ++ [m])%list.
Proof.
  unfold zadd1; intros Hm; f_equal.
  induction acc as [| x acc IH]; simpl in *; [reflexivity |].
  destruct (member_eqb (snd x) (snd m)) eqn:E; simpl.
  - apply member_eqb_eq in E; elim Hm; now left.
  - f_equal; apply IH; tauto.
Qed.

Lemma zadd_all_new (ms acc : list (Z * CachedMember)) :
  NoDup (map snd (acc ++ ms)) -> fold_left zadd1 ms acc = (acc ++ ms)%list.
Proof.
  revert acc; induction ms as [| m ms IH]; intros acc Hnd; simpl.
  - now rewrite app_nil_r.
  - rewrite zadd1_new.
    + rewrite IH; rewrite <- app_assoc; [reflexivity | exact Hnd].
    + rewrite map_app in Hnd; simpl in Hnd.
      apply NoDup_remove_2 in Hnd; intros Hin; apply Hnd, in_or_app; now left.
Qed.

Lemma members_from_snd (l : list CachedMember) (i : Z) :
  map snd (CacheService.members_from i l) = l.
Proof. revert i; induction l as [| s l IH]; intros i; simpl; [| rewrite IH]; reflexivity. Qed.

Lemma members_from_le (l : list CachedMember) (i : Z) (p : Z * CachedMember) :
  In p (CacheService.members_from i l) -> fst p <= 10 - i.
Proof.
  revert i; induction l as [| s l IH]; intros i;
    cbn [CacheService.members_from In]; [tauto |].
  intros [<- | Hin]; cbn [fst]; [lia |].
  apply IH in Hin; lia.
Qed.

Lemma members_from_sorted (l : list CachedMember) (i : Z) :
  StronglySorted (desc fst) (CacheService.members_from i l).
Proof.
  revert i; induction l as [| s l IH]; intros i;
    cbn [CacheService.members_from]; constructor; [apply IH |].
  apply Forall_forall; intros p Hp; unfold desc; cbn [fst].
  apply members_from_le in Hp; lia.
Qed.

Lemma cached_redis_cons (now : Timestamp) (ms : list CachedMember) :
  ms <> [] -> NoDup ms -> (List.length ms <= 10)%nat ->
  cached_redis now ms =
  {| zset := CacheService.members_from 0 ms;
     expire_at := Some (now + 1000 * CacheService.TTL)%N |}.
Proof.
  intros Hne Hnd Hlen; destruct ms as [| m ms]; [now elim Hne |].
  unfold cached_redis; rewrite (firstn_all2 (n := 10)) by exact Hlen.
  set (l := m :: ms) in *.
  unfold redis_zadd, redis_live; cbn [redis_empty expire_at zset].
  rewrite (zadd_all_new _ []) by (rewrite app_nil_l, members_from_snd; exact Hnd).
  rewrite app_nil_l.
  unfold redis_expire, redis_live; cbn [expire_at zset].
  unfold l; reflexivity.
Qed.

(** Reading the key back: the members in the order they were given, until
    the key expires. *)
Lemma zrange_cached (now now' : Timestamp) (ms : list CachedMember) :
  NoDup ms -> (List.length ms <= 10)%nat ->
  redis_zrange_rev (cached_redis now ms) now' =
  if (now + 1000 * CacheService.TTL <=? now')%N then [] else ms.
Proof.
  intros Hnd Hlen; destruct ms as [| m ms].
  - cbn; now destruct (_ <=? _)%N.
  - rewrite cached_redis_cons by (assumption || discriminate).
    unfold redis_zrange_rev, redis_live; cbn [expire_at].
    destruct (_ <=? _)%N; [reflexivity |]; cbn [zset].
    rewrite order_by_desc_id by apply members_from_sorted.
    apply members_from_snd.
Qed.

Lemma run_cacheTop10 (w : World) (ms : list CachedMember) :
  redis_ok w ->
  run (CacheService.cacheTop10 ms) w = (set_redis w (cached_redis (clock w) ms), inr tt).
Proof.
  intros Hr; unfold CacheService.cacheTop10.
  rewrite run_bind, run_await; simpl handle.
  rewrite rcmd_ok by exact Hr; simpl fst; simpl snd.
  destruct ms as [| m ms]; [reflexivity |].
  unfold cached_redis.
  change (firstn 10 (m :: ms)) with (m :: firstn 9 ms).
  set (members := CacheService.members_from 0 (m :: firstn 9 ms)).
  change members with ((10 - 0, m) :: CacheService.members_from (0 + 1) (firstn 9 ms)) at 1.
  cbv iota.
  rewrite run_bind, run_await; simpl handle.
  rewrite rcmd_ok by exact Hr; simpl fst; simpl snd.
  rewrite run_await; simpl handle.
  rewrite rcmd_ok by exact Hr; reflexivity.
Qed.

(** * [getTop10] *)

Lemma map_map_rank {A B C : Type} (h : B -> C) (f : A -> Z -> B) (r : Z) (l : list A) :
  map h (map_rank f r l) = map_rank (fun x rk => h (f x rk)) r l.
Proof. revert r; induction l as [| x l IH]; intros r; simpl; [| rewrite IH]; reflexivity. Qed.

Lemma map_rank_map {A B C : Type} (g : A -> B) (f : B -> Z -> C) (r : Z) (l : list A) :
  map_rank f r (map g l) = map_rank (fun x rk => f (g x) rk) r l.
Proof. revert r; induction l as [| x l IH]; intros r; simpl; [| rewrite IH]; reflexivity. Qed.

Lemma map_rank_const {A B : Type} (h : A -> B) (r : Z) (l : list A) :
  map_rank (fun x _ => h x) r l = map h l.
Proof. revert r; induction l as [| x l IH]; intros r; simpl; [| rewrite IH]; reflexivity. Qed.

Lemma nth_error_map_rank {A B : Type} (f : A -> Z -> B) (l : list A) :
  forall (r : Z) (i : nat),
  nth_error (map_rank f r l) i =
  option_map (fun x => f x (r + Z.of_nat i)) (nth_error l i).
Proof.
  induction l as [| x l IH]; intros r [| i]; try reflexivity.
  - cbn [map_rank nth_error option_map]; now rewrite Z.add_0_r.
  - cbn [map_rank nth_error]; rewrite IH; destruct (nth_error l i); cbn; [| reflexivity].
    do 2 f_equal; lia.
Qed.

Lemma run_getTop10_hit (w : World) (c : CachedMember) (cs : list CachedMember) :
  redis_ok w ->
  redis_zrange_rev (redis w) (clock w) = c :: cs ->
  run LeaderboardService.getTop10 w =
  (w, inr {| scores := map_rank (fun c rank =>
                         MkTop10Entry rank (c_userId c) (c_username c) (c_score c) None)
                         1 (c :: cs);
             cachedAt := Some (clock w) |}).
Proof.
  intros Hr Hhit; unfold LeaderboardService.getTop10; rewrite run_rethrow.
  rewrite run_bind; unfold CacheService.getTop10.
  rewrite run_bind, run_await; simpl handle.
  rewrite rcmd_ok by exact Hr; cbn [fst snd].
  rewrite set_redis_same, Hhit, run_ret; cbv beta iota.
  cbn [map_rank]; rewrite run_bind, run_await; cbn [handle run]; cbv beta iota.
  cbn [map]; rewrite map_map_rank; reflexivity.
Qed.

Lemma run_getTop10_miss (w : World) :
  db_ok w -> redis_ok w ->
  redis_zrange_rev (redis w) (clock w) = [] ->
  run LeaderboardService.getTop10 w =
  (set_redis w (cached_redis (clock w) (top10_members (db w))),
   inr {| scores := map_rank (fun u rank =>
                      MkTop10Entry rank (r_id u) (r_username u) (r_totalScore u)
                        (Some (match r_lastUpdated u with
                               | Some t => t
                               | None => clock w
                               end)))
                      1 (firstn 10 (sql_all_users_with_scores (db w)));
          cachedAt := None |}).
Proof.
  intros Hdb Hr Hmiss; unfold LeaderboardService.getTop10; rewrite run_rethrow.
  rewrite run_bind; unfold CacheService.getTop10.
  rewrite run_bind, run_await; simpl handle.
  rewrite rcmd_ok by exact Hr; cbn [fst snd].
  rewrite set_redis_same, Hmiss, run_ret; cbv beta iota.
  rewrite run_bind, run_getAllUsersWithScores by exact Hdb.
  rewrite run_bind.
  fold to_member; fold (top10_members (db w)).
  rewrite run_cacheTop10 by exact Hr.
  reflexivity.
Qed.

Lemma NoDup_firstn {A : Type} (n : nat) (l : list A) : NoDup l -> NoDup (firstn n l).
Proof.
  intros H; rewrite <- (firstn_skipn n l) in H.
  now apply NoDup_app_remove_r in H.
Qed.

Lemma top10_members_NoDup (d : Db) :
  NoDup (map u_id (users d)) -> NoDup (top10_members d).
Proof.
  intros Hnd; unfold top10_members.
  apply (NoDup_map_inv c_userId); rewrite map_map; simpl c_userId.
  rewrite <- firstn_map; apply NoDup_firstn.
  apply (Permutation_NoDup (l := map r_id (map (user_score_row d) (users d)))).
  - apply Permutation_map; symmetry; apply order_by_desc_perm.
  - rewrite map_map; exact Hnd.
Qed.

Lemma top10_members_length (d : Db) : (List.length (top10_members d) <= 10)%nat.
Proof. unfold top10_members; rewrite length_map, length_firstn; lia. Qed.

(** On a coherent cache, [getTop10] answers with the leaderboard of the
    tables and leaves a coherent cache. *)
Lemma getTop10_coherent (w : World) :
  db_ok w -> redis_ok w -> NoDup (map u_id (users (db w))) -> coherent w ->
  exists w1 top,
    run LeaderboardService.getTop10 w = (w1, inr top) /\
    map entry_core (scores top) = leaderboard (db w) /\
    db w1 = db w /\ clock w1 = clock w /\
    db_ok w1 /\ redis_ok w1 /\ coherent w1.
Proof.
  intros Hdb Hr Hnd Hco.
  destruct (redis_zrange_rev (redis w) (clock w)) as [| c cs] eqn:E.
  - eexists; eexists; split; [now apply run_getTop10_miss |].
    cbn [scores]; rewrite map_map_rank.
    repeat split; try assumption.
    intros now; cbn [redis db set_redis].
    rewrite zrange_cached
      by (apply top10_members_NoDup, Hnd || apply top10_members_length).
    destruct (_ <=? _)%N; [now left | now right].
  - eexists; eexists; split; [now apply (run_getTop10_hit w c cs) |].
    cbn [scores]; rewrite <- E.
    destruct (Hco (clock w)) as [H0 | Htop]; [congruence |].
    rewrite Htop; unfold top10_members.
    rewrite map_map_rank, map_rank_map.
    repeat split; assumption.
Qed.

(** * Claims about ranks and ties *)

Lemma leaderboard_scores (d : Db) (l : list Top10Entry) :
  map entry_core l = leaderboard d ->
  map t_score l = map r_totalScore (firstn 10 (sql_all_users_with_scores d)).
Proof.
  intros H.
  replace (map t_score l) with (map snd (map entry_core l))
    by (rewrite map_map; reflexivity).
  rewrite H; unfold leaderboard; rewrite map_map_rank; cbn [snd].
  apply map_rank_const.
Qed.

Lemma leaderboard_nth (d : Db) (l : list Top10Entry) (i : nat) (e : Top10Entry) :
  map entry_core l = leaderboard d ->
  nth_error l i = Some e ->
  exists x, nth_error (sql_all_users_with_scores d) i = Some x /\ (i < 10)%nat /\
            t_rank e = Z.of_nat i + 1 /\ t_userId e = r_id x /\
            t_score e = r_totalScore x.
Proof.
  intros H Hi.
  assert (Hc : nth_error (map entry_core l) i = Some (entry_core e))
    by (rewrite nth_error_map, Hi; reflexivity).
  rewrite H in Hc; unfold leaderboard in Hc.
  rewrite nth_error_map_rank, nth_error_firstn in Hc.
  destruct (Nat.ltb_spec i 10) as [Hlt | Hge]; [| discriminate].
  destruct (nth_error (sql_all_users_with_scores d) i) as [x |]; [| discriminate].
  cbn [option_map] in Hc; unfold entry_core in Hc.
  injection Hc as Hrank Hid _ Hscore.
  exists x; split; [reflexivity |].
  split; [exact Hlt |].
  change (1 + Z.of_nat i = t_rank e) in Hrank.
  split; [lia |].
  split; symmetry; assumption.
Qed.

(** C2, as stated, fails: A and B are tied at 200; the top-10 path numbers
    them 1 and 2, the single-user path gives both rank 1. *)
Lemma tied_user_ranks_disagree :
  sql_total_score (db world_tie) "A" = 200 /\
  sql_total_score (db world_tie) "B" = 200 /\
  option_map (fun top => map entry_core (scores top))
    (match snd (run getTop10 world_tie) with inr top => Some top | inl _ => None end)
  = Some [(1, "A", "A", 200); (2, "B", "B", 200)] /\
  snd (run (getUserRank "B") world_tie) = inr 1.
Proof. repeat split. Qed.

(** C2, amended.  With the store and the cache answering, registered
    users only in [score_history], and a cache that is absent, expired or
    in line with the tables: for every entry of [getTop10] with a
    non-negative score, [getUserRank] of that user is the entry's rank
    minus the number of entries listed above it with the same score.  The
    two ranks are equal exactly when no entry above has the same score. *)
Theorem getUserRank_vs_getTop10 (w : World) :
  db_ok w -> redis_ok w -> db_wf (db w) -> coherent w ->
  exists w1 top,
    run getTop10 w = (w1, inr top) /\
    forall (i : nat) (e : Top10Entry),
      nth_error (scores top) i = Some e -> 0 <= t_score e ->
      run (getUserRank (t_userId e)) w1 =
        (w1, inr (t_rank e - ties_above (scores top) i (t_score e))) /\
      0 <= ties_above (scores top) i (t_score e).
Proof.
  intros Hdb Hr Hwf Hco.
  destruct (getTop10_coherent w Hdb Hr (proj1 Hwf) Hco)
    as (w1 & top & Hrun & Hcore & Hdb1 & _ & Hok1 & _).
  exists w1, top; split; [exact Hrun |].
  intros i e Hi Hs.
  destruct (leaderboard_nth (db w) (scores top) i e Hcore Hi)
    as (x & Hx & Hlt & Hrank & Hid & Hscore).
  split; [| unfold ties_above; lia].
  rewrite run_getUserRank by exact Hok1.
  rewrite Hdb1, Hid, Hrank, Hscore.
  rewrite (sql_user_rank_sorted (db w) i x Hwf Hx) by lia.
  unfold ties_above.
  rewrite (leaderboard_scores (db w) (scores top) Hcore).
  rewrite firstn_map, firstn_firstn, Nat.min_l by lia.
  rewrite filter_map_length.
  rewrite (filter_ext (fun a => r_totalScore x =? r_totalScore a)
             (fun a => r_totalScore a =? r_totalScore x))
    by (intros a; apply Z.eqb_sym).
  reflexivity.
Qed.

Lemma world_tie_wf : db_wf (db world_tie).
Proof.
  split.
  - cbv; repeat constructor; cbv; intuition discriminate.
  - intros h Hin; cbv in Hin.
    destruct Hin as [<- | [<- | []]]; cbv; tauto.
Defined.

Lemma world_tie_coherent : coherent world_tie.
Proof. intros now; left; reflexivity. Defined.

Lemma getUserRank_vs_getTop10_witness :
  exists w1 top,
    run getTop10 world_tie = (w1, inr top) /\
    forall (i : nat) (e : Top10Entry),
      nth_error (scores top) i = Some e -> 0 <= t_score e ->
      run (getUserRank (t_userId e)) w1 =
        (w1, inr (t_rank e - ties_above (scores top) i (t_score e))) /\
      0 <= ties_above (scores top) i (t_score e).
Proof.
  exact (getUserRank_vs_getTop10 world_tie eq_refl eq_refl
           world_tie_wf world_tie_coherent).
Defined.

(** ** Polling the leaderboard *)

Lemma poll_coherent (delays : list N) :
  forall w, db_ok w -> redis_ok w -> NoDup (map u_id (users (db w))) -> coherent w ->
  Forall (fun r => exists top,
            r = inr top /\ map entry_core (scores top) = leaderboard (db w))
         (poll delays w).
Proof.
  induction delays as [| ms ds IH]; intros w Hdb Hr Hnd Hco; cbn [poll]; [constructor |].
  destruct (getTop10_coherent (advance ms w) Hdb Hr Hnd Hco)
    as (w1 & top & Hrun & Hcore & Hdb1 & _ & Hok1 & Hr1 & Hco1).
  rewrite Hrun; constructor.
  - exists top; split; [reflexivity | exact Hcore].
  - change (db (advance ms w)) with (db w) in Hdb1.
    rewrite <- Hdb1; apply IH; try assumption.
    now rewrite Hdb1.
Qed.

(** Calls of [updateScore] served one after another keep the key in line
    with the tables: an accepted call deletes it, the others change
    nothing. *)
Lemma apply_events_coherent (calls : list Call) :
  forall w, db_ok w -> redis_ok w -> coherent w ->
  coherent (fst (apply_events calls w)).
Proof.
  induction calls as [| c cs IH]; intros w Hdb Hr Hco; cbn [apply_events]; [exact Hco |].
  set (wa := advance (call_after c) w).
  assert (Hdba : db_ok wa) by exact Hdb.
  assert (Hra : redis_ok wa) by exact Hr.
  assert (Hcoa : coherent wa) by exact Hco.
  assert (Hnext : forall w1 r,
            db_ok w1 -> redis_ok w1 -> coherent w1 ->
            coherent (fst (let '(w2, rs) := apply_events cs w1 in
                           (w2, (r : Error + ScoreUpdateResult) :: rs)))).
  { intros w1 r H1 H2 H3; pose proof (IH w1 H1 H2 H3) as H.
    destruct (apply_events cs w1) as [w2 rs]; exact H. }
  destruct (processed (db wa) (call_actionId c)) eqn:Hp.
  - rewrite (run_updateScore_replay wa) by assumption; now apply Hnext.
  - destruct (score_value (db wa) (call_actionType c)) as [v |] eqn:Hv.
    + rewrite (run_updateScore_fresh wa _ _ _ v) by assumption.
      apply Hnext; [exact Hdb | exact Hr |].
      intros now; left; reflexivity.
    + rewrite (run_updateScore_invalid wa) by assumption; now apply Hnext.
Qed.

Section OrderByMap.
Context {A B : Type} (key : A -> Z) (key' : B -> Z) (g : A -> B).
Hypothesis key_g : forall x, key' (g x) = key x.

Lemma insert_desc_map (x : A) (l : list A) :
  map g (insert_desc key x l) = insert_desc key' (g x) (map g l).
Proof.
  induction l as [| y l IH]; simpl; [reflexivity |].
  rewrite !key_g; destruct (key x <? key y); simpl; [now rewrite IH | reflexivity].
Qed.

Lemma order_by_desc_map (l : list A) :
  map g (order_by_desc key l) = order_by_desc key' (map g l).
Proof.
  induction l as [| x l IH]; simpl; [reflexivity |].
  now rewrite insert_desc_map, IH.
Qed.
End OrderByMap.

(** The leaderboard is a function of the [users] table and of the totals:
    the instants of the events play no part. *)
Lemma leaderboard_totals_only (d d' : Db) :
  users d' = users d ->
  (forall u, sql_total_score d' u = sql_total_score d u) ->
  leaderboard d' = leaderboard d.
Proof.
  intros Hu Ht.
  pose (core := fun r : UserScoreRow => (r_id r, r_username r, r_totalScore r)).
  assert (E : forall d0, leaderboard d0 =
            map_rank (fun c rank => (rank, fst (fst c), snd (fst c), snd c)) 1
              (firstn 10 (order_by_desc snd
                 (map (fun u => (u_id u, u_username u, sql_total_score d0 (u_id u)))
                      (users d0))))).
  { intros d0; unfold leaderboard, sql_all_users_with_scores.
    change (map (fun u => (u_id u, u_username u, sql_total_score d0 (u_id u)))
                (users d0))
      with (map (fun u => core (user_score_row d0 u)) (users d0)).
    rewrite <- (map_map (user_score_row d0) core).
    rewrite <- (order_by_desc_map r_totalScore snd core) by reflexivity.
    rewrite firstn_map, map_rank_map; reflexivity. }
  rewrite !E, Hu; do 3 f_equal.
  apply map_ext; intros u; now rewrite Ht.
Qed.

(** C7, as stated, fails: B reached 200 at instant 1000, A at instant 2000,
    and [getTop10] lists A at rank 1 and B at rank 2, from the tables and
    from the cache alike.  The listing is the same when A is the one who
    reached 200 first: the query has no column to tell the two cases apart. *)
Lemma later_achiever_listed_first :
  map (fun h => (sh_userId h, sh_scoreIncrease h, sh_timestamp h))
      (score_history (db world_tie))
  = [("B", 200, 1000%N); ("A", 200, 2000%N)] /\
  map (fun r => option_map (fun top => map entry_core (scores top))
                  (match r with inr top => Some top | inl _ => None end))
      (poll [0%N; 1000%N] world_tie)
  = [Some [(1, "A", "A", 200); (2, "B", "B", 200)];
     Some [(1, "A", "A", 200); (2, "B", "B", 200)]] /\
  map (fun h => (sh_userId h, sh_scoreIncrease h, sh_timestamp h))
      (score_history (db world_tie_mirror))
  = [("A", 200, 1000%N); ("B", 200, 2000%N)] /\
  leaderboard (db world_tie_mirror) = leaderboard (db world_tie).
Proof. repeat split. Qed.

(** A [getTop10] in flight while an update is served can leave a key that
    is not in line with the tables: it read the tables before the insert and
    wrote the key after the update's [DEL].  With B at 200, A's update to 200
    then leaves B, A cached while the tables give A, B: the next call lists
    B first, the call after the key has expired lists A first. *)
Lemma getTop10_in_flight_caches_old_list :
  let w := fst (fst (interleave refill_after_delete getTop10
                       (updateScore "A" "e2" "milestone") world_B_ahead)) in
  leaderboard (db w) = [(1, "A", "A", 200); (2, "B", "B", 200)] /\
  map (fun r => option_map (fun top => (map entry_core (scores top), cachedAt top))
                  (match r with inr top => Some top | inl _ => None end))
      (poll [0%N; 300000%N] w)
  = [Some ([(1, "B", "B", 200); (2, "A", "A", 0)], Some 1000%N);
     Some ([(1, "A", "A", 200); (2, "B", "B", 200)], None)].
Proof. split; vm_compute; reflexivity. Qed.

(** C7, amended.  Ties are broken the same way on every call, but not by
    time.  With the store and the cache answering, distinct user ids and a
    cache that is absent, expired or in line with the tables, every one of
    any number of [getTop10] calls without an event in between returns the
    same users with the same ranks in the same order.  Users with equal
    totals are listed in the order in which the store enumerates [users],
    and the listing depends on the [users] table and the totals only, not on
    the instants at which the scores were reached.  The condition on the
    cache is kept by calls of [updateScore] that are served one after
    another. *)
Theorem getTop10_tie_order (w : World) (delays : list N) :
  db_ok w -> redis_ok w -> NoDup (map u_id (users (db w))) -> coherent w ->
  Forall (fun r => exists top,
            r = inr top /\ map entry_core (scores top) = leaderboard (db w))
         (poll delays w) /\
  (forall k : Z,
     filter (fun r => r_totalScore r =? k) (sql_all_users_with_scores (db w)) =
     filter (fun r => r_totalScore r =? k) (map (user_score_row (db w)) (users (db w)))) /\
  (forall d' : Db,
     users d' = users (db w) ->
     (forall u, sql_total_score d' u = sql_total_score (db w) u) ->
     leaderboard d' = leaderboard (db w)) /\
  (forall calls : list Call, coherent (fst (apply_events calls w))).
Proof.
  intros Hdb Hr Hnd Hco; split; [| split; [| split]].
  - now apply poll_coherent.
  - intros k; apply order_by_desc_stable.
  - intros d'; apply leaderboard_totals_only.
  - intros calls; now apply apply_events_coherent.
Qed.

Lemma getTop10_tie_order_witness :
  Forall (fun r => exists top,
            r = inr top /\ map entry_core (scores top) = leaderboard (db world_tie))
         (poll [0%N; 1000%N; 400000%N] world_tie).
Proof.
  exact (proj1 (getTop10_tie_order world_tie [0%N; 1000%N; 400000%N]
                  eq_refl eq_refl (proj1 world_tie_wf) world_tie_coherent)).
Defined.

(** * Further properties of the update path *)

(** X1. An accepted event, served with no other request in flight, adds
    its catalog value to the user's score and to nobody else's: the answer
    carries the total before, the catalog value and their sum; the event id
    is now processed and the cached key is gone; [users] and [actions] are
    untouched.  The numbers of the answer are JavaScript numbers: this is
    stated for tables whose [score_increase] values, with the new one, add
    up in magnitude to a safe integer, and the three numbers are then safe
    integers.  (With another update of the same user in flight, [newScore]
    also counts that update's row.) *)
Theorem updateScore_accepted (w : World) (u a t : string) (v : Z) :
  db_ok w -> redis_ok w ->
  processed (db w) a = false ->
  sql_action_score_value (db w) t = Some v -> v <> 0 ->
  history_mass (db w) + Z.abs v <= Problem4.MAX_SAFE_INTEGER ->
  exists w1 r,
    run (updateScore u a t) w = (w1, inr r) /\
    res_userId r = u /\
    res_previousScore r = sql_total_score (db w) u /\
    res_scoreIncrease r = v /\
    res_newScore r = res_previousScore r + v /\
    sql_total_score (db w1) u = res_newScore r /\
    (forall u', u' <> u -> sql_total_score (db w1) u' = sql_total_score (db w) u') /\
    processed (db w1) a = true /\
    redis w1 = redis_empty /\
    users (db w1) = users (db w) /\ actions (db w1) = actions (db w) /\
    safe_integer (res_previousScore r) /\ safe_integer (res_scoreIncrease r) /\
    safe_integer (res_newScore r).
Proof.
  intros Hdb Hr Hp Hrow Hv Hsafe.
  assert (Hval : score_value (db w) t = Some v).
  { unfold score_value; rewrite Hrow; simpl.
    destruct (Z.eqb_spec v 0); [contradiction | reflexivity]. }
  assert (Hs1 : safe_history (db (recorded w u a t v)))
    by (unfold safe_history; now rewrite mass_recorded).
  assert (Hs0 : safe_history (db w))
    by (unfold safe_history; pose proof (Z.abs_nonneg v); lia).
  exists (recorded w u a t v); eexists; split;
    [apply run_updateScore_fresh; assumption |].
  cbn [res_userId res_previousScore res_scoreIncrease res_newScore].
  split; [reflexivity |]. split; [reflexivity |]. split; [reflexivity |].
  split; [now rewrite total_recorded, String.eqb_refl |].
  split; [reflexivity |].
  split.
  { intros u' Hu'; rewrite total_recorded.
    destruct (String.eqb_spec u u'); [congruence | lia]. }
  split; [apply processed_recorded |].
  split; [reflexivity |]. split; [reflexivity |]. split; [reflexivity |].
  split; [now apply safe_total |].
  split; [| now apply safe_total].
  unfold safe_integer; pose proof (total_le_mass (db w) u) as H.
  unfold safe_history in Hs0; lia.
Qed.

Lemma updateScore_accepted_witness :
  exists w1 r,
    run (updateScore "A" "e1" "quest_complete") world_B_ahead = (w1, inr r) /\
    res_userId r = "A" /\
    res_previousScore r = sql_total_score (db world_B_ahead) "A" /\
    res_scoreIncrease r = 50 /\
    res_newScore r = res_previousScore r + 50 /\
    sql_total_score (db w1) "A" = res_newScore r /\
    (forall u', u' <> "A" ->
       sql_total_score (db w1) u' = sql_total_score (db world_B_ahead) u') /\
    processed (db w1) "e1" = true /\
    redis w1 = redis_empty /\
    users (db w1) = users (db world_B_ahead) /\
    actions (db w1) = actions (db world_B_ahead) /\
    safe_integer (res_previousScore r) /\ safe_integer (res_scoreIncrease r) /\
    safe_integer (res_newScore r).
Proof.
  apply (updateScore_accepted world_B_ahead "A" "e1" "quest_complete" 50);
    try reflexivity;
    try (apply Z.leb_le; vm_compute; reflexivity);
    discriminate.
Defined.

(** X2. A request that fails the route's own checks is answered before any
    statement or command is sent: whatever the world and its faults, the
    world is left exactly as it was.  No authenticated user (or an empty
    id) gives 401; a missing, [null], empty-string, [false] or [0] field
    gives 400 [Missing required fields]; two present fields that are not
    both strings give 400 [Invalid field types]. *)
Theorem postScoresUpdate_rejects_before_store
    (w : World) (userId : option string) (actionId actionType : JsValue) :
  (userId = None \/ userId = Some "" ->
   run (Routes.postScoresUpdate userId actionId actionType) w =
   (w, inr (MkResponse 401 (ErrorBody "User not authenticated" None None))))
  /\
  (forall u, userId = Some u -> u <> "" ->
   (truthy actionId = false \/ truthy actionType = false ->
    run (Routes.postScoresUpdate userId actionId actionType) w =
    (w, inr (MkResponse 400
               (ErrorBody "Missing required fields: actionId, actionType" None None))))
   /\
   (truthy actionId = true -> truthy actionType = true ->
    (forall a t, ~ (actionId = JsString a /\ actionType = JsString t)) ->
    run (Routes.postScoresUpdate userId actionId actionType) w =
    (w, inr (MkResponse 400 (ErrorBody "Invalid field types" None None))))).
Proof.
  split.
  - intros [-> | ->]; reflexivity.
  - intros u -> Hu; destruct u as [| c u']; [congruence |].
    unfold Routes.postScoresUpdate; rewrite run_try_catch; split.
    + intros [H | H]; rewrite H; [| rewrite orb_true_r]; reflexivity.
    + intros Ha Ht Hns; rewrite Ha, Ht; cbn [negb orb].
      destruct actionId, actionType; try reflexivity.
      elim (Hns s s0); split; reflexivity.
Qed.

Lemma postScoresUpdate_rejects_before_store_witness :
  run (Routes.postScoresUpdate None (JsString "e1") (JsString "milestone"))
      world_store_fails =
    (world_store_fails,
     inr (MkResponse 401 (ErrorBody "User not authenticated" None None))) /\
  run (Routes.postScoresUpdate (Some "A") (JsString "") (JsString "milestone")) world0 =
    (world0,
     inr (MkResponse 400
            (ErrorBody "Missing required fields: actionId, actionType" None None))) /\
  run (Routes.postScoresUpdate (Some "A") (JsNumber 7) (JsString "milestone")) world0 =
    (world0, inr (MkResponse 400 (ErrorBody "Invalid field types" None None))).
Proof.
  split; [| split].
  - apply (proj1 (postScoresUpdate_rejects_before_store world_store_fails None
                    (JsString "e1") (JsString "milestone"))).
    now left.
  - apply (proj2 (postScoresUpdate_rejects_before_store world0 (Some "A")
                    (JsString "") (JsString "milestone")) "A" eq_refl);
      [discriminate | now left].
  - apply (proj2 (postScoresUpdate_rejects_before_store world0 (Some "A")
                    (JsNumber 7) (JsString "milestone")) "A" eq_refl);
      [discriminate | reflexivity | reflexivity |].
    intros a t [H _]; discriminate H.
Defined.

(** The update route around the service, on a store that answers. *)
Lemma run_postScoresUpdate_service (w : World) (u a t : string) (usr : User) :
  db_ok w -> u <> "" -> a <> "" -> t <> "" ->
  sql_user_by_id (db w) u = Some usr ->
  run (Routes.postScoresUpdate (Some u) (JsString a) (JsString t)) w =
  match run (updateScore u a t) w with
  | (w1, inr r) => (w1, inr (MkResponse 200 (UpdateBody r)))
  | (w1, inl err) =>
      (w1, inr (if includes (message err) "Invalid action type"
                then MkResponse 400
                       (ErrorBody (message err) (Some "INVALID_ACTION_TYPE") None)
                else MkResponse 500
                       (ErrorBody "Failed to update score" None (Some (message err)))))
  end.
Proof.
  intros Hdb Hu Ha Ht Husr.
  unfold Routes.postScoresUpdate; rewrite run_try_catch.
  destruct u as [| c u']; [congruence |].
  simpl truthy.
  destruct (String.eqb_spec a ""); [congruence |].
  destruct (String.eqb_spec t ""); [congruence |].
  simpl negb; simpl orb; cbv iota.
  rewrite run_bind, run_getUserById, Husr by assumption.
  rewrite run_bind.
  destruct (run (updateScore (String c u') a t) w) as [w1 [err | r]]; [| reflexivity].
  cbn [run]; destruct (includes (message err) "Invalid action type"); reflexivity.
Qed.

(** X3. The update route, end to end, for a request served with no other
    request in flight.  For a registered user, an unseen action id and a
    catalog action worth [v <> 0], the answer is 200 with [previousScore],
    [newScore = previousScore + v], [scoreIncrease = v], and both rows are
    written; this is stated for tables whose [score_increase] values, with
    the new one, add up in magnitude to a safe integer, so that the
    numbers of the answer are the stored integers.  For an id that
    [getUserById] does not find, the answer is 404 [User not found] and
    nothing is written, however valid the event. *)
Theorem postScoresUpdate_accepted_or_unknown_user (w : World) (u a t : string) :
  db_ok w -> redis_ok w -> u <> "" -> a <> "" -> t <> "" ->
  (sql_user_by_id (db w) u = None ->
   run (Routes.postScoresUpdate (Some u) (JsString a) (JsString t)) w =
   (w, inr (MkResponse 404 (ErrorBody "User not found" None None))))
  /\
  (forall usr v,
   sql_user_by_id (db w) u = Some usr ->
   processed (db w) a = false ->
   sql_action_score_value (db w) t = Some v -> v <> 0 ->
   history_mass (db w) + Z.abs v <= Problem4.MAX_SAFE_INTEGER ->
   exists rank ts,
     run (Routes.postScoresUpdate (Some u) (JsString a) (JsString t)) w =
     (recorded w u a t v,
      inr (MkResponse 200
             (UpdateBody (MkScoreUpdateResult u (sql_total_score (db w) u)
                            (sql_total_score (db w) u + v) v rank ts)))) /\
     1 <= rank /\
     safe_integer (sql_total_score (db w) u) /\ safe_integer v /\
     safe_integer (sql_total_score (db w) u + v)).
Proof.
  intros Hdb Hr Hu Ha Ht; split.
  - intros Hnone.
    unfold Routes.postScoresUpdate; rewrite run_try_catch.
    destruct u as [| c u']; [congruence |].
    simpl truthy.
    destruct (String.eqb_spec a ""); [congruence |].
    destruct (String.eqb_spec t ""); [congruence |].
    simpl negb; simpl orb; cbv iota.
    rewrite run_bind, run_getUserById, Hnone by assumption; reflexivity.
  - intros usr v Husr Hp Hrow Hv Hsafe.
    assert (Hval : score_value (db w) t = Some v).
    { unfold score_value; rewrite Hrow; simpl.
      destruct (Z.eqb_spec v 0); [contradiction | reflexivity]. }
    rewrite (run_postScoresUpdate_service w u a t usr) by assumption.
    rewrite (run_updateScore_fresh w u a t v) by assumption.
    rewrite total_recorded, String.eqb_refl.
    eexists; eexists; split; [reflexivity |].
    split; [apply sql_user_rank_pos |].
    pose proof (total_le_mass (db w) u) as H0.
    pose proof (total_le_mass (db (recorded w u a t v)) u) as H1.
    rewrite mass_recorded, total_recorded, String.eqb_refl in H1.
    pose proof (Z.abs_nonneg v).
    unfold safe_integer; repeat split; lia.
Qed.

Lemma postScoresUpdate_accepted_or_unknown_user_witness :
  run (Routes.postScoresUpdate (Some "C") (JsString "e1") (JsString "quest_complete"))
      world_B_ahead =
  (world_B_ahead, inr (MkResponse 404 (ErrorBody "User not found" None None))) /\
  exists rank ts,
    run (Routes.postScoresUpdate (Some "A") (JsString "e1") (JsString "quest_complete"))
        world_B_ahead =
    (recorded world_B_ahead "A" "e1" "quest_complete" 50,
     inr (MkResponse 200
            (UpdateBody (MkScoreUpdateResult "A" 0 50 50 rank ts)))) /\
    1 <= rank.
Proof.
  split.
  - refine (proj1 (postScoresUpdate_accepted_or_unknown_user world_B_ahead "C" "e1"
                     "quest_complete" eq_refl eq_refl _ _ _) eq_refl);
      discriminate.
  - destruct (proj2 (postScoresUpdate_accepted_or_unknown_user world_B_ahead "A" "e1"
                       "quest_complete" eq_refl eq_refl
                       ltac:(discriminate) ltac:(discriminate) ltac:(discriminate))
                (user "A") 50 eq_refl eq_refl eq_refl ltac:(discriminate)
                ltac:(apply Z.leb_le; vm_compute; reflexivity))
      as (rank & ts & Hrun & Hrank & _).
    exists rank, ts; split; [exact Hrun | exact Hrank].
Defined.

(** A store that rejects every statement. *)
Lemma sql_down {X : Type} (w : World) (stmt : Db -> Error + (Db * X)) (msg : string) :
  db_fault w = Some (0%nat, msg) -> sql w stmt = (w, inl (MkError msg)).
Proof. unfold sql; intros ->; reflexivity. Qed.

(** X4. With the store down, each route answers 500 with the store's
    message as [details] and the world is left as it was: the update route
    (for a syntactically valid request), the single-user route, and the
    top-10 route when the cache answers with a miss. *)
Theorem routes_answer_500_when_store_down (w : World) (msg u a t : string) :
  db_fault w = Some (0%nat, msg) ->
  includes msg "Invalid action type" = false ->
  (u <> "" -> a <> "" -> t <> "" ->
   run (Routes.postScoresUpdate (Some u) (JsString a) (JsString t)) w =
   (w, inr (MkResponse 500 (ErrorBody "Failed to update score" None (Some msg)))))
  /\
  run (Routes.getScoresUser u) w =
  (w, inr (MkResponse 500 (ErrorBody "Failed to get user score" None (Some msg))))
  /\
  (redis_ok w -> redis_zrange_rev (redis w) (clock w) = [] ->
   run Routes.getScoresTop10 w =
   (w, inr (MkResponse 500 (ErrorBody "Failed to fetch top 10 scores" None (Some msg))))).
Proof.
  intros Hdown Hmsg; split; [| split].
  - intros Hu Ha Ht.
    unfold Routes.postScoresUpdate; rewrite run_try_catch.
    destruct u as [| c u']; [congruence |].
    simpl truthy.
    destruct (String.eqb_spec a ""); [congruence |].
    destruct (String.eqb_spec t ""); [congruence |].
    simpl negb; simpl orb; cbv iota.
    rewrite run_bind; unfold getUserById; rewrite run_await; simpl handle.
    rewrite (sql_down w _ msg Hdown); cbn [run message]; now rewrite Hmsg.
  - unfold Routes.getScoresUser; rewrite run_try_catch, run_bind.
    unfold getUserById; rewrite run_await; simpl handle.
    now rewrite (sql_down w _ msg Hdown).
  - intros Hr Hmiss.
    unfold Routes.getScoresTop10; rewrite run_try_catch, run_bind.
    unfold getTop10; rewrite run_rethrow.
    rewrite run_bind; unfold CacheService.getTop10.
    rewrite run_bind, run_await; simpl handle.
    rewrite rcmd_ok by exact Hr; cbn [fst snd].
    rewrite set_redis_same, Hmiss, run_ret; cbv beta iota.
    rewrite run_bind; unfold getAllUsersWithScores; rewrite run_await; simpl handle.
    now rewrite (sql_down w _ msg Hdown).
Qed.

Lemma routes_answer_500_when_store_down_witness :
  run (Routes.getScoresUser "A")
      (set_db_fault world_e1 (Some (0%nat, "SQLITE_BUSY: database is locked"))) =
  (set_db_fault world_e1 (Some (0%nat, "SQLITE_BUSY: database is locked")),
   inr (MkResponse 500
          (ErrorBody "Failed to get user score" None
             (Some "SQLITE_BUSY: database is locked")))).
Proof.
  exact (proj1 (proj2 (routes_answer_500_when_store_down
     (set_db_fault world_e1 (Some (0%nat, "SQLITE_BUSY: database is locked")))
     "SQLITE_BUSY: database is locked" "A" "e1" "quest_complete" eq_refl eq_refl))).
Defined.

(** X5. With the cache down and the store up, an event that would be
    accepted is written to both tables and then answered with the cache's
    error: [invalidateTop10] comes after the two inserts.  The retry of the
    same request, cache still down, is served as a replay: it succeeds with
    the new total and [scoreIncrease = 0], and writes nothing. *)
Theorem updateScore_recorded_although_cache_down
    (w : World) (u a t msg : string) (v : Z) :
  db_ok w -> redis_fault w = Some msg ->
  processed (db w) a = false -> score_value (db w) t = Some v ->
  let w1 := with_action (with_history w u t v) u a in
  run (updateScore u a t) w = (w1, inl (MkError msg)) /\
  sql_total_score (db w1) u = sql_total_score (db w) u + v /\
  run (updateScore u a t) w1 =
  (w1, inr (MkScoreUpdateResult u (sql_total_score (db w) u + v)
              (sql_total_score (db w) u + v) 0 (sql_user_rank (db w1) u) (clock w))).
Proof.
  intros Hdb Hdown Hp Hv w1.
  assert (Htot : sql_total_score (db w1) u = sql_total_score (db w) u + v).
  { change (db w1) with (db (recorded w u a t v)).
    now rewrite total_recorded, String.eqb_refl. }
  split; [| split; [exact Htot |]].
  - unfold updateScore.
    rewrite run_bind, run_isActionProcessed by assumption.
    fold (processed (db w) a); rewrite Hp.
    rewrite run_bind, run_getActionScoreValue by assumption.
    fold (score_value (db w) t); rewrite Hv.
    rewrite run_bind, run_getTotalScore by assumption.
    rewrite run_bind, run_await; simpl handle; cbv beta iota.
    rewrite run_bind, run_await; simpl handle; cbv beta iota.
    rewrite run_bind; unfold addScoreHistory.
    rewrite run_bind, run_await; simpl handle.
    rewrite (sql_exec_ok (fun d => sql_insert_score_history d _) w
               (db (with_history w u t v)) Hdb)
      by (unfold sql_insert_score_history; simpl sh_id;
          rewrite fresh_uuid_fresh; reflexivity).
    rewrite run_ret; cbv beta iota.
    change (set_db w (db (with_history w u t v))) with (with_history w u t v).
    assert (Hdb1 : db_ok (with_history w u t v)) by exact Hdb.
    rewrite run_bind; unfold recordAction.
    rewrite run_bind, run_await; simpl handle; cbv beta iota.
    rewrite run_await; simpl handle.
    rewrite (sql_exec_ok (fun d => sql_insert_idempotency d _) _
               (db (with_action (with_history w u t v) u a)) Hdb1)
      by (apply processed_false_insert; exact Hp).
    change (set_db (with_history w u t v) (db (with_action (with_history w u t v) u a)))
      with w1.
    assert (Hdb2 : db_ok w1) by exact Hdb.
    rewrite run_bind, run_getTotalScore by assumption.
    rewrite run_bind; unfold CacheService.invalidateTop10.
    rewrite run_await; simpl handle.
    now rewrite (rcmd_down _ w1 msg Hdown).
  - rewrite run_updateScore_replay; [rewrite Htot; reflexivity | exact Hdb |].
    change (db w1) with (db (recorded w u a t v)); apply processed_recorded.
Qed.

Lemma updateScore_recorded_although_cache_down_witness :
  let w := set_db world_redis_down (db world0) in
  let w1 := with_action (with_history w "A" "quest_complete" 50) "A" "e1" in
  run (updateScore "A" "e1" "quest_complete") w =
  (w1, inl (MkError "Redis not connected")).
Proof.
  exact (proj1 (updateScore_recorded_although_cache_down
                  (set_db world_redis_down (db world0)) "A" "e1" "quest_complete"
                  "Redis not connected" 50 eq_refl eq_refl eq_refl eq_refl)).
Defined.

(** * Further properties of the leaderboard and its cache *)

Lemma top10_members_nonempty (d : Db) : users d <> [] -> top10_members d <> [].
Proof.
  intros Hne Hnil; apply Hne.
  assert (Hlen : List.length (top10_members d) = Nat.min 10 (List.length (users d))).
  { unfold top10_members, sql_all_users_with_scores.
    rewrite length_map, length_firstn.
    rewrite (Permutation_length (order_by_desc_perm r_totalScore _)), length_map.
    reflexivity. }
  rewrite Hnil in Hlen; destruct (users d); [reflexivity | discriminate].
Qed.

Lemma leaderboard_of_members (d : Db) :
  map entry_core
    (map_rank (fun c rank =>
       MkTop10Entry rank (c_userId c) (c_username c) (c_score c) None)
       1 (top10_members d)) = leaderboard d.
Proof. unfold top10_members; now rewrite map_map_rank, map_rank_map. Qed.

(** X6. Invalidate on write, for requests served one after another: when
    an accepted event has been served with no other request in flight, the
    [getTop10] served next, however much later, is computed from the tables
    (no [cachedAt]) and is the leaderboard of the tables with the new row.
    (A [getTop10] that is in flight during the update can write the key
    after the update's [DEL]: see [getTop10_in_flight_caches_old_list].) *)
Theorem getTop10_fresh_after_update (w : World) (u a t : string) (v : Z) (ms : N) :
  db_ok w -> redis_ok w -> NoDup (map u_id (users (db w))) ->
  processed (db w) a = false -> score_value (db w) t = Some v ->
  exists w1 r w2 top,
    run (updateScore u a t) w = (w1, inr r) /\
    run getTop10 (advance ms w1) = (w2, inr top) /\
    cachedAt top = None /\
    map entry_core (scores top) = leaderboard (db w1) /\
    sql_total_score (db w1) u = sql_total_score (db w) u + v.
Proof.
  intros Hdb Hr Hnd Hp Hv.
  exists (recorded w u a t v); eexists; eexists; eexists.
  split; [apply run_updateScore_fresh; assumption |].
  split; [apply run_getTop10_miss; [exact Hdb | exact Hr | reflexivity] |].
  cbn [cachedAt scores]; rewrite map_map_rank.
  repeat split.
  now rewrite total_recorded, String.eqb_refl.
Qed.

Lemma getTop10_fresh_after_update_witness :
  exists w1 r w2 top,
    run (updateScore "A" "e1" "quest_complete") world0 = (w1, inr r) /\
    run getTop10 (advance 10 w1) = (w2, inr top) /\
    cachedAt top = None /\
    map entry_core (scores top) = leaderboard (db w1) /\
    sql_total_score (db w1) "A" = sql_total_score (db world0) "A" + 50.
Proof.
  apply (getTop10_fresh_after_update world0 "A" "e1" "quest_complete" 50 10);
    try reflexivity.
  cbv; repeat constructor; cbv; intuition discriminate.
Defined.

(** X7. Time to live.  After a miss has cached a non-empty leaderboard, a
    call less than 300 seconds later is answered from the cache alone: it
    succeeds even if the store rejects every statement, leaves the world as
    it is, and carries [cachedAt], the same users, ranks and scores, and no
    [lastUpdated].  From 300 seconds on, the key has expired and the
    leaderboard is computed from the tables again. *)
Theorem getTop10_cache_lifetime (w : World) (ms : N) (f : option (nat * string)) :
  db_ok w -> redis_ok w -> NoDup (map u_id (users (db w))) ->
  users (db w) <> [] ->
  redis_zrange_rev (redis w) (clock w) = [] ->
  let w1 := fst (run getTop10 w) in
  ((ms < 1000 * CacheService.TTL)%N ->
   exists top,
     run getTop10 (set_db_fault (advance ms w1) f) =
       (set_db_fault (advance ms w1) f, inr top) /\
     cachedAt top = Some (clock w + ms)%N /\
     map entry_core (scores top) = leaderboard (db w) /\
     Forall (fun e => t_lastUpdated e = None) (scores top))
  /\
  ((1000 * CacheService.TTL <= ms)%N ->
   exists w2 top,
     run getTop10 (advance ms w1) = (w2, inr top) /\
     cachedAt top = None /\
     map entry_core (scores top) = leaderboard (db w)).
Proof.
  intros Hdb Hr Hnd Hne Hmiss w1.
  assert (Hw1 : w1 = set_redis w (cached_redis (clock w) (top10_members (db w))))
    by (unfold w1; now rewrite run_getTop10_miss).
  assert (Hz : forall now,
             redis_zrange_rev (redis w1) now =
             if (clock w + 1000 * CacheService.TTL <=? now)%N then []
             else top10_members (db w)).
  { intros now; rewrite Hw1; cbn [redis set_redis].
    apply zrange_cached;
      [now apply top10_members_NoDup | apply top10_members_length]. }
  split.
  - intros Hms.
    set (w2 := set_db_fault (advance ms w1) f).
    assert (Hhit : redis_zrange_rev (redis w2) (clock w2) = top10_members (db w)).
    { change (redis w2) with (redis w1).
      change (clock w2) with (clock w1 + ms)%N.
      rewrite Hz, Hw1; cbn [clock set_redis].
      destruct (N.leb_spec (clock w + 1000 * CacheService.TTL) (clock w + ms));
        [lia | reflexivity]. }
    destruct (top10_members (db w)) as [| c cs] eqn:E;
      [now elim (top10_members_nonempty (db w) Hne) |].
    assert (Hr2 : redis_ok w2) by (unfold w2; rewrite Hw1; exact Hr).
    eexists; split; [apply (run_getTop10_hit w2 c cs Hr2 Hhit) |].
    cbn [cachedAt scores]; rewrite <- E.
    split; [unfold w2; rewrite Hw1; reflexivity |].
    split; [apply leaderboard_of_members |].
    generalize (top10_members (db w)) 1.
    induction l as [| m l IH]; intros z; cbn [map_rank]; constructor;
      [reflexivity | apply IH].
  - intros Hms.
    assert (Hmiss2 : redis_zrange_rev (redis (advance ms w1)) (clock (advance ms w1)) = []).
    { change (redis (advance ms w1)) with (redis w1).
      change (clock (advance ms w1)) with (clock w1 + ms)%N.
      rewrite Hz, Hw1; cbn [clock set_redis].
      destruct (N.leb_spec (clock w + 1000 * CacheService.TTL) (clock w + ms));
        [reflexivity | lia]. }
    eexists; eexists; split.
    + apply run_getTop10_miss; [| | exact Hmiss2]; rewrite Hw1; assumption.
    + cbn [cachedAt scores]; rewrite map_map_rank.
      split; [reflexivity |]; rewrite Hw1; reflexivity.
Qed.

Lemma getTop10_cache_lifetime_witness :
  let w1 := fst (run getTop10 world_tie) in
  let down := Some (0%nat, "SQLITE_BUSY: database is locked") in
  exists top,
    run getTop10 (set_db_fault (advance 299999 w1) down) =
      (set_db_fault (advance 299999 w1) down, inr top) /\
    cachedAt top = Some (clock world_tie + 299999)%N /\
    map entry_core (scores top) = leaderboard (db world_tie) /\
    Forall (fun e => t_lastUpdated e = None) (scores top).
Proof.
  intros w1 down.
  assert (Hne : users (db world_tie) <> []) by (vm_compute; discriminate).
  assert (Hmiss : redis_zrange_rev (redis world_tie) (clock world_tie) = [])
    by reflexivity.
  destruct (getTop10_cache_lifetime world_tie 299999 down
              eq_refl eq_refl (proj1 world_tie_wf) Hne Hmiss) as [Hhit _].
  apply Hhit; reflexivity.
Defined.

Section SortedFacts.
Context {A : Type} (key : A -> Z).

Lemma sorted_nth_le (s : list A) :
  StronglySorted (desc key) s ->
  forall (i j : nat) (x y : A),
  (i <= j)%nat -> nth_error s i = Some x -> nth_error s j = Some y ->
  key y <= key x.
Proof.
  induction 1 as [| a s Hs IH Ha]; intros i j x y Hij Hi Hj.
  - destruct i; discriminate.
  - destruct i as [| i], j as [| j]; cbn [nth_error] in *.
    + injection Hi as <-; injection Hj as <-; lia.
    + injection Hi as <-.
      rewrite Forall_forall in Ha; apply (Ha y); eapply nth_error_In; exact Hj.
    + lia.
    + apply (IH i j); (assumption || lia).
Qed.

Lemma sorted_firstn_skipn (s : list A) :
  StronglySorted (desc key) s ->
  forall (n : nat) (x y : A),
  In x (firstn n s) -> In y (skipn n s) -> key y <= key x.
Proof.
  induction 1 as [| a s Hs IH Ha]; intros n x y Hx Hy.
  - destruct n; contradiction.
  - destruct n as [| n]; [contradiction |].
    cbn [firstn skipn] in *; destruct Hx as [<- | Hx].
    + rewrite Forall_forall in Ha; apply (Ha y).
      rewrite <- (firstn_skipn n s); apply in_or_app; now right.
    + now apply (IH n).
Qed.
End SortedFacts.

Lemma leaderboard_entry (d : Db) (l : list Top10Entry) (i : nat) (e : Top10Entry) :
  map entry_core l = leaderboard d ->
  nth_error l i = Some e ->
  exists x, nth_error (firstn 10 (sql_all_users_with_scores d)) i = Some x /\
            entry_core e = (Z.of_nat i + 1, r_id x, r_username x, r_totalScore x).
Proof.
  intros H Hi.
  assert (Hc : nth_error (map entry_core l) i = Some (entry_core e))
    by (rewrite nth_error_map, Hi; reflexivity).
  rewrite H in Hc; unfold leaderboard in Hc.
  rewrite nth_error_map_rank in Hc.
  destruct (nth_error (firstn 10 (sql_all_users_with_scores d)) i) as [x |];
    [| discriminate].
  cbn [option_map] in Hc.
  assert (Hinj : forall a b : Z * string * string * Z, Some a = Some b -> a = b)
    by (intros a b H0; congruence).
  apply Hinj in Hc.
  exists x; split; [reflexivity |].
  rewrite <- Hc; do 3 f_equal; lia.
Qed.

Lemma leaderboard_ids (d : Db) (l : list Top10Entry) :
  map entry_core l = leaderboard d ->
  map t_userId l = map r_id (firstn 10 (sql_all_users_with_scores d)).
Proof.
  intros H.
  replace (map t_userId l) with (map (fun c => snd (fst (fst c))) (map entry_core l))
    by (rewrite map_map; reflexivity).
  rewrite H; unfold leaderboard; rewrite map_map_rank; cbn [fst snd].
  apply map_rank_const.
Qed.

Lemma row_of_user (d : Db) (x : UserScoreRow) :
  In x (sql_all_users_with_scores d) ->
  exists usr, In usr (users d) /\ x = user_score_row d usr.
Proof.
  intros Hin; unfold sql_all_users_with_scores in Hin.
  apply (Permutation_in _ (order_by_desc_perm r_totalScore _)) in Hin.
  apply in_map_iff in Hin as (usr & <- & Hu); now exists usr.
Qed.

Lemma In_firstn {A : Type} (n : nat) (l : list A) (x : A) :
  In x (firstn n l) -> In x l.
Proof.
  intros H; rewrite <- (firstn_skipn n l); apply in_or_app; now left.
Qed.

(** X8. What [getTop10] returns is the top of the table.  On a coherent
    cache (absent, expired or in line with the tables) the entries are the
    [min 10 (number of users)] best registered users, each listed once: the
    entry at position [i] has rank [i + 1], a registered user's id and
    name, and that user's total as score; scores never increase down the
    list; and every registered user who is not listed has a total no greater
    than any listed score. *)
Theorem getTop10_is_the_top (w : World) :
  db_ok w -> redis_ok w -> NoDup (map u_id (users (db w))) -> coherent w ->
  exists w1 top,
    run getTop10 w = (w1, inr top) /\
    List.length (scores top) = Nat.min 10 (List.length (users (db w))) /\
    NoDup (map t_userId (scores top)) /\
    forall (i : nat) (e : Top10Entry),
      nth_error (scores top) i = Some e ->
      t_rank e = Z.of_nat i + 1 /\
      (exists usr, In usr (users (db w)) /\
                   u_id usr = t_userId e /\ u_username usr = t_username e) /\
      t_score e = sql_total_score (db w) (t_userId e) /\
      (forall (j : nat) (e' : Top10Entry),
         (i <= j)%nat -> nth_error (scores top) j = Some e' ->
         t_score e' <= t_score e) /\
      (forall usr, In usr (users (db w)) ->
         ~ In (u_id usr) (map t_userId (scores top)) ->
         sql_total_score (db w) (u_id usr) <= t_score e).
Proof.
  intros Hdb Hr Hnd Hco.
  destruct (getTop10_coherent w Hdb Hr Hnd Hco)
    as (w1 & top & Hrun & Hcore & _).
  set (d := db w) in *; set (s := sql_all_users_with_scores d).
  assert (Hsorted : StronglySorted (desc r_totalScore) s)
    by apply order_by_desc_sorted.
  assert (Hids := leaderboard_ids d (scores top) Hcore); fold s in Hids.
  exists w1, top; split; [exact Hrun |]; split; [| split].
  - rewrite <- (length_map t_userId), Hids, length_map, length_firstn.
    unfold s, sql_all_users_with_scores.
    now rewrite (Permutation_length (order_by_desc_perm r_totalScore _)), length_map.
  - rewrite Hids, <- firstn_map; apply NoDup_firstn.
    apply (Permutation_NoDup (l := map r_id (map (user_score_row d) (users d)))).
    + apply Permutation_map; symmetry; apply order_by_desc_perm.
    + rewrite map_map; exact Hnd.
  - intros i e Hi.
    destruct (leaderboard_entry d (scores top) i e Hcore Hi) as (x & Hx & He).
    fold s in Hx; unfold entry_core in He.
    injection He as Hrank Hid Hname Hscore.
    assert (Hxin : In x (firstn 10 s)) by (eapply nth_error_In; exact Hx).
    destruct (row_of_user d x (In_firstn _ _ _ Hxin)) as (usr & Husr & Hrow).
    split; [exact Hrank |]; split; [| split; [| split]].
    + exists usr; rewrite Hid, Hname, Hrow; repeat split; assumption.
    + rewrite Hscore, Hid, Hrow; reflexivity.
    + intros j e' Hij Hj.
      destruct (leaderboard_entry d (scores top) j e' Hcore Hj) as (y & Hy & He').
      fold s in Hy; unfold entry_core in He'.
      injection He' as _ _ _ Hscore'.
      rewrite Hscore, Hscore'.
      apply (sorted_nth_le r_totalScore (firstn 10 s)) with (i := i) (j := j);
        try assumption.
      rewrite <- (firstn_skipn 10 s) in Hsorted.
      clear - Hsorted; induction (firstn 10 s) as [| a l IH]; [constructor |].
      cbn [app] in Hsorted; inversion Hsorted as [| ? ? Hs Ha]; subst.
      constructor; [now apply IH |].
      rewrite Forall_forall in *; intros z Hz; apply Ha, in_or_app; now left.
    + intros usr' Husr' Hnot.
      rewrite Hscore.
      apply (sorted_firstn_skipn r_totalScore s Hsorted 10 x (user_score_row d usr'));
        [exact Hxin |].
      assert (Hin : In (user_score_row d usr') s).
      { unfold s, sql_all_users_with_scores.
        apply (Permutation_in _ (Permutation_sym (order_by_desc_perm r_totalScore _))).
        now apply in_map. }
      rewrite <- (firstn_skipn 10 s) in Hin; apply in_app_or in Hin as [Hin | Hin];
        [| exact Hin].
      elim Hnot; rewrite Hids.
      change (u_id usr') with (r_id (user_score_row d usr')); now apply in_map.
Qed.

Lemma getTop10_is_the_top_witness :
  exists w1 top,
    run getTop10 world_tie = (w1, inr top) /\
    List.length (scores top) = Nat.min 10 (List.length (users (db world_tie))) /\
    NoDup (map t_userId (scores top)) /\
    forall (i : nat) (e : Top10Entry),
      nth_error (scores top) i = Some e ->
      t_rank e = Z.of_nat i + 1 /\
      (exists usr, In usr (users (db world_tie)) /\
                   u_id usr = t_userId e /\ u_username usr = t_username e) /\
      t_score e = sql_total_score (db world_tie) (t_userId e) /\
      (forall (j : nat) (e' : Top10Entry),
         (i <= j)%nat -> nth_error (scores top) j = Some e' ->
         t_score e' <= t_score e) /\
      (forall usr, In usr (users (db world_tie)) ->
         ~ In (u_id usr) (map t_userId (scores top)) ->
         sql_total_score (db world_tie) (u_id usr) <= t_score e).
Proof.
  exact (getTop10_is_the_top world_tie eq_refl eq_refl (proj1 world_tie_wf)
           world_tie_coherent).
Defined.

(** * Further properties of [getUserRank] and of the read routes *)

Lemma filter_length_le_impl {A : Type} (f g : A -> bool) (l : list A) :
  (forall x, In x l -> f x = true -> g x = true) ->
  (List.length (filter f l) <= List.length (filter g l))%nat.
Proof.
  induction l as [| x l IH]; intros H; cbn [filter]; [lia |].
  assert (IH' := IH (fun y Hy => H y (or_intror Hy))).
  destruct (f x) eqn:Ef.
  - rewrite (H x (or_introl eq_refl) Ef); cbn [List.length]; lia.
  - destruct (g x); cbn [List.length]; lia.
Qed.

Lemma filter_length_lt_impl {A : Type} (f g : A -> bool) (l : list A) (y : A) :
  (forall x, In x l -> f x = true -> g x = true) ->
  In y l -> f y = false -> g y = true ->
  (List.length (filter f l) < List.length (filter g l))%nat.
Proof.
  induction l as [| x l IH]; intros H Hy Hf Hg; [contradiction |].
  cbn [filter].
  assert (Hl := filter_length_le_impl f g l (fun z Hz => H z (or_intror Hz))).
  destruct Hy as [-> | Hy].
  - rewrite Hf, Hg; cbn [List.length]; lia.
  - assert (IH' := IH (fun z Hz => H z (or_intror Hz)) Hy Hf Hg).
    destruct (f x) eqn:Ef.
    + rewrite (H x (or_introl eq_refl) Ef); cbn [List.length]; lia.
    + destruct (g x); cbn [List.length]; lia.
Qed.

Lemma filter_nil_iff {A : Type} (f : A -> bool) (l : list A) :
  filter f l = [] <-> forall x, In x l -> f x = false.
Proof.
  induction l as [| x l IH]; cbn [filter].
  - split; [intros _ y [] | reflexivity].
  - destruct (f x) eqn:Ef; split.
    + discriminate.
    + intros H; rewrite (H x (or_introl eq_refl)) in Ef; discriminate.
    + intros H y [<- | Hy]; [exact Ef | now apply IH].
    + intros H; apply IH; intros y Hy; apply H; now right.
Qed.

(** X9. The rank of [getUserRank] follows the totals.  On a store that
    answers, the rank is at least 1 and at most 1 plus the number of users
    with events; it is 1 exactly when no user with events has a strictly
    greater total; a user whose total is at least another's never has the
    worse rank; and a user with events whose total is strictly greater has
    the strictly better rank. *)
Theorem getUserRank_follows_totals (w : World) (u v : string) :
  db_ok w ->
  exists ru rv,
    run (getUserRank u) w = (w, inr ru) /\
    run (getUserRank v) w = (w, inr rv) /\
    1 <= ru <= 1 + Z.of_nat (List.length (history_user_ids (db w))) /\
    (ru = 1 <->
     forall h, In h (score_history (db w)) ->
       sql_total_score (db w) (sh_userId h) <= sql_total_score (db w) u) /\
    (sql_total_score (db w) v <= sql_total_score (db w) u -> ru <= rv) /\
    (sql_total_score (db w) v < sql_total_score (db w) u ->
     events_of (db w) u <> [] -> ru < rv).
Proof.
  intros Hdb; set (d := db w).
  exists (sql_user_rank d u), (sql_user_rank d v).
  split; [now apply run_getUserRank |]; split; [now apply run_getUserRank |].
  unfold sql_user_rank; split; [| split; [| split]].
  - pose proof (filter_length_le
                  (fun g => sql_total_score d u <? sql_total_score d g)
                  (history_user_ids d)); lia.
  - split.
    + intros H h Hh.
      assert (E : filter (fun g => sql_total_score d u <? sql_total_score d g)
                    (history_user_ids d) = []).
      { destruct (filter _ (history_user_ids d)); [reflexivity |].
        cbn [List.length] in H; lia. }
      rewrite filter_nil_iff in E.
      assert (Hin : In (sh_userId h) (history_user_ids d))
        by (unfold history_user_ids; rewrite nodup_In; now apply in_map).
      apply E in Hin; apply Z.ltb_ge in Hin; exact Hin.
    + intros H.
      assert (E : filter (fun g => sql_total_score d u <? sql_total_score d g)
                    (history_user_ids d) = []).
      { apply filter_nil_iff; intros g Hg.
        unfold history_user_ids in Hg; rewrite nodup_In in Hg.
        apply in_map_iff in Hg as (h & <- & Hh).
        apply Z.ltb_ge; now apply H. }
      now rewrite E.
  - intros Hle.
    pose proof (filter_length_le_impl
                  (fun g => sql_total_score d u <? sql_total_score d g)
                  (fun g => sql_total_score d v <? sql_total_score d g)
                  (history_user_ids d)) as Hl.
    assert (Hl' := Hl (fun g _ Hg =>
      proj2 (Z.ltb_lt _ _) (Z.le_lt_trans _ _ _ Hle (proj1 (Z.ltb_lt _ _) Hg)))).
    lia.
  - intros Hlt Hev.
    assert (Hin : In u (history_user_ids d)).
    { unfold history_user_ids; rewrite nodup_In.
      destruct (events_of d u) as [| h l] eqn:E; [now elim Hev |].
      assert (Hh : In h (events_of d u)) by (rewrite E; now left).
      unfold events_of in Hh; apply filter_In in Hh as [Hh Hu].
      apply String.eqb_eq in Hu; subst u; now apply in_map. }
    pose proof (filter_length_lt_impl
                  (fun g => sql_total_score d u <? sql_total_score d g)
                  (fun g => sql_total_score d v <? sql_total_score d g)
                  (history_user_ids d) u) as Hl.
    assert (Hl' := Hl
      (fun g _ Hg => proj2 (Z.ltb_lt _ _)
         (Z.lt_trans _ _ _ Hlt (proj1 (Z.ltb_lt _ _) Hg)))
      Hin (Z.ltb_irrefl _) (proj2 (Z.ltb_lt _ _) Hlt)).
    lia.
Qed.

Lemma getUserRank_follows_totals_witness :
  exists ru rv,
    run (getUserRank "A") world_e1 = (world_e1, inr ru) /\
    run (getUserRank "B") world_e1 = (world_e1, inr rv) /\
    1 <= ru <= 1 + Z.of_nat (List.length (history_user_ids (db world_e1))) /\
    (ru = 1 <->
     forall h, In h (score_history (db world_e1)) ->
       sql_total_score (db world_e1) (sh_userId h) <= sql_total_score (db world_e1) "A") /\
    (sql_total_score (db world_e1) "B" <= sql_total_score (db world_e1) "A" -> ru <= rv) /\
    (sql_total_score (db world_e1) "B" < sql_total_score (db world_e1) "A" ->
     events_of (db world_e1) "A" <> [] -> ru < rv).
Proof. exact (getUserRank_follows_totals world_e1 "A" "B" eq_refl). Defined.

(** ** Programs that never insert *)

Lemma sql_query_db {X : Type} (w : World) (f : Db -> X) :
  db (fst (sql w (query f))) = db w.
Proof.
  unfold sql, query; destruct (db_fault w) as [[[| n] msg] |]; reflexivity.
Qed.

Lemma rcmd_db {X : Type} (w : World) (cmd : Redis -> Timestamp -> Redis * X) :
  db (fst (rcmd w cmd)) = db w.
Proof.
  unfold rcmd; destruct (redis_fault w); [reflexivity |].
  destruct (cmd (redis w) (clock w)); reflexivity.
Qed.

Lemma handle_db {X : Type} (op : Op X) (w : World) :
  is_insert op = false -> db (fst (handle op w)) = db w.
Proof.
  destruct op; cbn [is_insert handle]; intros H;
    try apply sql_query_db; try apply rcmd_db; try reflexivity; discriminate.
Qed.

Lemma run_no_insert {A : Type} (p : Prog A) :
  no_insert p -> forall w, db (fst (run p w)) = db w.
Proof.
  induction p as [a | e | X op k IH]; cbn [no_insert run]; intros H w;
    try reflexivity.
  destruct H as [Hop Hk].
  pose proof (handle_db op w Hop) as Hh.
  destruct (handle op w) as [w' r]; cbn [fst] in Hh.
  rewrite IH by apply Hk; exact Hh.
Qed.

Lemma no_insert_bind {A B : Type} (p : Prog A) (f : A -> Prog B) :
  no_insert p -> (forall a, no_insert (f a)) -> no_insert (bind p f).
Proof.
  intros Hp Hf; induction p as [a | e | X op k IH]; cbn [no_insert bind] in *; auto.
  destruct Hp as [Hop Hk]; split; auto.
Qed.

Lemma no_insert_try_catch {A : Type} (p : Prog A) (h : Error -> Prog A) :
  no_insert p -> (forall e, no_insert (h e)) -> no_insert (try_catch p h).
Proof.
  intros Hp Hh; induction p as [a | e | X op k IH];
    cbn [no_insert try_catch] in *; auto.
  destruct Hp as [Hop Hk]; split; auto.
Qed.

Lemma no_insert_await {X : Type} (op : Op X) :
  is_insert op = false -> no_insert (await op).
Proof. intros H; cbn; split; [exact H | intros [e | x]; exact I]. Qed.

Ltac no_insert_step :=
  match goal with
  | |- no_insert (bind _ _) => apply no_insert_bind; [| intros ?]
  | |- no_insert (try_catch _ _) => apply no_insert_try_catch; [| intros ?]
  | |- no_insert (await _) => apply no_insert_await; reflexivity
  | |- no_insert (Ret _) => exact I
  | |- no_insert (Throw _) => exact I
  | |- no_insert (match ?x with _ => _ end) => destruct x
  | |- no_insert (if ?x then _ else _) => destruct x
  end.

Lemma no_insert_getTop10 : no_insert getTop10.
Proof.
  unfold getTop10, CacheService.getTop10, CacheService.cacheTop10,
    getAllUsersWithScores.
  repeat no_insert_step.
Qed.

Lemma no_emit_getTop10 : no_emit getTop10.
Proof.
  unfold getTop10, CacheService.getTop10, CacheService.cacheTop10,
    getAllUsersWithScores.
  repeat no_emit_step.
Qed.

(** X10. The read routes never write to the tables and never emit.
    Whatever the world and its faults, whatever the answer, after
    [GET /api/scores/top10] and after [GET /api/scores/user/:userId] the four
    tables and the socket.io log are what they were; the single-user route
    leaves the cached key alone as well. *)
Theorem read_routes_write_nothing (w : World) (userId : string) :
  (db (fst (run Routes.getScoresTop10 w)) = db w /\
   emitted (fst (run Routes.getScoresTop10 w)) = emitted w) /\
  (db (fst (run (Routes.getScoresUser userId) w)) = db w /\
   emitted (fst (run (Routes.getScoresUser userId) w)) = emitted w /\
   redis (fst (run (Routes.getScoresUser userId) w)) = redis w).
Proof.
  assert (T1 : no_insert Routes.getScoresTop10).
  { unfold Routes.getScoresTop10.
    repeat (first [apply no_insert_getTop10 | no_insert_step]). }
  assert (T2 : no_emit Routes.getScoresTop10).
  { unfold Routes.getScoresTop10.
    repeat (first [apply no_emit_getTop10 | no_emit_step]). }
  assert (U1 : no_insert (Routes.getScoresUser userId)).
  { unfold Routes.getScoresUser, getUserById, getUserScoreAndRank, getTotalScore,
      getUserRank.
    repeat no_insert_step. }
  assert (U2 : no_emit (Routes.getScoresUser userId)).
  { unfold Routes.getScoresUser, getUserById, getUserScoreAndRank, getTotalScore,
      getUserRank.
    repeat no_emit_step. }
  repeat split; try (now apply run_no_insert); try (now apply run_no_emit).
  (* the single-user route sends no command to Redis *)
  unfold Routes.getScoresUser, getUserById, getUserScoreAndRank, getTotalScore,
    getUserRank.
  rewrite run_try_catch, run_bind, run_await; cbn [handle].
  assert (Q : forall (X : Type) (f : Db -> X) w0,
             redis (fst (sql w0 (query f))) = redis w0).
  { intros X f w0; unfold sql, query.
    destruct (db_fault w0) as [[[| n] msg] |]; reflexivity. }
  pose proof (Q _ (fun d => sql_user_by_id d userId) w) as Q1.
  destruct (sql w (query (fun d => sql_user_by_id d userId))) as [w1 [e | [usr |]]];
    cbn [fst] in Q1; cbn [run fst]; try exact Q1.
  rewrite run_bind, run_bind, run_bind, run_await; cbn [handle].
  pose proof (Q _ (fun d => sql_total_score d userId) w1) as Q2.
  destruct (sql w1 (query (fun d => sql_total_score d userId))) as [w2 [e | tot]];
    cbn [fst] in Q2; cbn [run fst]; [congruence |].
  rewrite run_bind, run_bind, run_await; cbn [handle].
  pose proof (Q _ (fun d => sql_user_rank d userId) w2) as Q3.
  destruct (sql w2 (query (fun d => sql_user_rank d userId))) as [w3 [e | rk]];
    cbn [fst] in Q3; cbn [run fst]; congruence.
Qed.

(** X11. An empty leaderboard is never cached.  With no registered user, a
    store and a cache that answer and a coherent cache, [GET
    /api/scores/top10] answers 200 with no entry and source [database], and
    leaves the key absent, so that every later call goes to the store
    again. *)
Theorem getScoresTop10_empty (w : World) :
  db_ok w -> redis_ok w -> coherent w -> users (db w) = [] ->
  run Routes.getScoresTop10 w =
  (set_redis w redis_empty,
   inr (MkResponse 200 (Top10Body [] (clock w) "database"))) /\
  coherent (set_redis w redis_empty) /\
  forall now, redis_zrange_rev redis_empty now = [].
Proof.
  intros Hdb Hr Hco Hu.
  assert (Hall : sql_all_users_with_scores (db w) = [])
    by (unfold sql_all_users_with_scores; now rewrite Hu).
  assert (Hmem : top10_members (db w) = [])
    by (unfold top10_members; now rewrite Hall).
  assert (Hmiss : redis_zrange_rev (redis w) (clock w) = [])
    by (destruct (Hco (clock w)) as [H | H]; congruence).
  split; [| split].
  - unfold Routes.getScoresTop10.
    rewrite run_try_catch, run_bind, run_getTop10_miss by assumption.
    rewrite Hmem, Hall; reflexivity.
  - intros now; left; reflexivity.
  - reflexivity.
Qed.

Lemma getScoresTop10_empty_witness :
  let w := set_db world0 (set_score_history
             {| users := []; score_history := [];
                actions := defaultActions; idempotency := [] |} []) in
  run Routes.getScoresTop10 w =
  (set_redis w redis_empty,
   inr (MkResponse 200 (Top10Body [] (clock w) "database"))).
Proof.
  intros w.
  refine (proj1 (getScoresTop10_empty w eq_refl eq_refl _ eq_refl)).
  intros now; left; reflexivity.
Defined.

(** * Requests in flight *)

Ltac turn_step :=
  cbn [follows ph_inv ph_effect do_effect];
  cbn [bind await turn is_sync handle].

Lemma follows_updateScore (u a t : string) (v : Z) :
  follows (fun r => res_userId r = u /\ res_scoreIncrease r = v)
          (update_phases u a t v) (updateScore u a t).
Proof.
  unfold update_phases, updateScore, isActionProcessed, getActionScoreValue,
    getTotalScore, getUserRank, addScoreHistory, recordAction,
    CacheService.invalidateTop10.
  (* isActionProcessed *)
  turn_step; intros w (Hdb & Hr & Hp & Hv).
  rewrite sql_query by exact Hdb; cbn [fst snd bind].
  fold (processed (db w) a); rewrite Hp; split; [reflexivity |]; clear w Hdb Hr Hp Hv.
  (* getActionScoreValue *)
  turn_step; intros w (Hdb & Hr & Hp & Hv).
  rewrite sql_query by exact Hdb; cbn [fst snd bind].
  fold (score_value (db w) t); rewrite Hv; split; [reflexivity |]; clear w Hdb Hr Hp Hv.
  (* getTotalScore *)
  turn_step; intros w (Hdb & Hr & Hp & Hv).
  rewrite sql_query by exact Hdb; cbn [fst snd bind].
  split; [reflexivity |]. generalize (or_zero (sql_total_score (db w) u)) as prev.
  clear w Hdb Hr Hp Hv; intros prev.
  (* uuidv4, new Date, addScoreHistory *)
  intros w (Hdb & Hr & Hp & Hv).
  cbn [bind await turn is_sync handle].
  rewrite (sql_exec_ok (fun d => sql_insert_score_history d _) w
             (db (with_history w u t v)) Hdb)
    by (unfold sql_insert_score_history; cbn [sh_id];
        rewrite fresh_uuid_fresh; reflexivity).
  cbn [fst snd bind]; split; [reflexivity |].
  generalize (history_row w u t v) as row; clear w Hdb Hr Hp Hv; intros _.
  (* new Date, recordAction *)
  turn_step; intros w (Hdb & Hr & Hp & Hv).
  rewrite (sql_exec_ok (fun d => sql_insert_idempotency d _) w
             (db (with_action w u a)) Hdb)
    by (apply processed_false_insert; exact Hp).
  cbn [fst snd bind]; split; [reflexivity |]; clear w Hdb Hr Hp Hv.
  (* getTotalScore *)
  turn_step; intros w (Hdb & Hr).
  rewrite sql_query by exact Hdb; cbn [fst snd bind].
  split; [reflexivity |]. generalize (or_zero (sql_total_score (db w) u)) as new.
  clear w Hdb Hr; intros new.
  (* invalidateTop10 *)
  turn_step; intros w (Hdb & Hr).
  rewrite rcmd_ok by exact Hr; cbn [fst snd bind].
  split; [reflexivity |]; clear w Hdb Hr.
  (* getUserRank *)
  turn_step; intros w (Hdb & Hr).
  rewrite sql_query by exact Hdb; cbn [fst snd bind].
  split; [reflexivity |].
  generalize (if sql_user_rank (db w) u =? 0 then 1 else sql_user_rank (db w) u) as rank.
  clear w Hdb Hr; intros rank.
  (* new Date, return *)
  turn_step; intros w (Hdb & Hr).
  cbn [fst snd bind]; split; [reflexivity |].
  eexists; split; [reflexivity |]; split; reflexivity.
Qed.

Lemma run_turn {A : Type} (p : Prog A) :
  forall w, run p w = run (snd (turn p w)) (fst (turn p w)).
Proof.
  induction p as [a | e | X op k IH]; intros w; cbn [turn run fst snd]; try reflexivity.
  destruct (handle op w) as [w' r].
  destruct (is_sync op); [apply IH | reflexivity].
Qed.

Lemma apply_effects_cons (e : Effect) (es : list Effect) (w : World) :
  apply_effects (e :: es) w = apply_effects es (do_effect e w).
Proof. reflexivity. Qed.

Lemma apply_effects_app (es es' : list Effect) (w : World) :
  apply_effects (es ++ es')%list w = apply_effects es' (apply_effects es w).
Proof. unfold apply_effects; apply fold_left_app. Qed.

Lemma chain_tail (ph : Phase) (phs : list Phase) : chain (ph :: phs) -> chain phs.
Proof. destruct phs; cbn [chain]; tauto. Qed.

Lemma chain_next (ph : Phase) (phs : list Phase) (w : World) :
  chain (ph :: phs) -> ph_inv ph w -> inv_of phs (do_effect (ph_effect ph) w).
Proof. destruct phs; cbn [chain inv_of]; [tauto | intros [H _]; apply H]. Qed.

Lemma stable_tail_l (ph : Phase) (phs phs' : list Phase) :
  stable (ph :: phs) phs' -> stable phs phs'.
Proof. intros H p p' Hp; apply H; now right. Qed.

Lemma stable_tail_r (ph : Phase) (phs phs' : list Phase) :
  stable phs' (ph :: phs) -> stable phs' phs.
Proof. intros H p p' Hp Hp'; apply H; [exact Hp | now right]. Qed.

Lemma stable_head (ph : Phase) (phs phs' : list Phase) (w : World) :
  stable (ph :: phs) phs' -> ph_inv ph w -> inv_of phs' w ->
  inv_of phs' (do_effect (ph_effect ph) w).
Proof.
  destruct phs' as [| ph' phs']; cbn [inv_of]; [trivial |].
  intros H Hi Hi'; apply H; try assumption; now left.
Qed.

(** A request that is served alone goes through its turns one after the
    other. *)
Lemma follows_run {A : Type} (post : A -> Prop) (phs phs' : list Phase) :
  forall (p : Prog A) (w : World),
  follows post phs p -> chain phs -> stable phs phs' ->
  inv_of phs w -> inv_of phs' w ->
  exists r, run p w = (apply_effects (map ph_effect phs) w, inr r) /\ post r /\
            inv_of phs' (apply_effects (map ph_effect phs) w).
Proof.
  induction phs as [| ph phs IH]; intros p w Hf Hc Hs Hi Hi'.
  - destruct Hf as (r & -> & Hr); exists r; repeat split; assumption.
  - cbn [follows] in Hf; destruct (Hf w Hi) as [Hw Hf'].
    rewrite run_turn, Hw; cbn [map]; rewrite apply_effects_cons.
    apply IH; try assumption.
    + now apply chain_tail in Hc.
    + now apply stable_tail_l in Hs.
    + now apply chain_next.
    + now apply (stable_head ph phs).
Qed.

(** Two requests in flight go through their turns in some merged order,
    whatever the schedule. *)
Lemma interleave_follows {A B : Type} (postP : A -> Prop) (postQ : B -> Prop)
    (sched : list bool) :
  forall (sP sQ : list Phase) (p : Prog A) (q : Prog B) (w : World),
  follows postP sP p -> follows postQ sQ q ->
  chain sP -> chain sQ -> stable sP sQ -> stable sQ sP ->
  inv_of sP w -> inv_of sQ w ->
  exists es r1 r2,
    interleave sched p q w = (apply_effects es w, inr r1, inr r2) /\
    postP r1 /\ postQ r2 /\
    Permutation es (map ph_effect sP ++ map ph_effect sQ)%list.
Proof.
  induction sched as [| b sched IH]; intros sP sQ p q w Hp Hq Hcp Hcq Hpq Hqp Hip Hiq.
  - cbn [interleave].
    destruct (follows_run postP sP sQ p w Hp Hcp Hpq Hip Hiq) as (r1 & -> & H1 & Hiq').
    assert (Hnil : stable sQ []) by (intros ? ? _ []).
    destruct (follows_run postQ sQ [] q _ Hq Hcq Hnil Hiq' I) as (r2 & -> & H2 & _).
    exists (map ph_effect sP ++ map ph_effect sQ)%list, r1, r2.
    rewrite apply_effects_app; repeat split; try assumption; reflexivity.
  - destruct b; cbn [interleave].
    + destruct sP as [| ph sP].
      * destruct Hp as (r & -> & Hr); cbn [turn].
        apply (IH [] sQ); try assumption.
        exists r; split; [reflexivity | exact Hr].
      * cbn [follows] in Hp; destruct (Hp w Hip) as [Hw Hp'].
        destruct (turn p w) as [w' p']; cbn [fst snd] in Hw, Hp'; subst w'.
        destruct (IH sP sQ p' q (do_effect (ph_effect ph) w)) as (es & r1 & r2 & E & H1 & H2 & Hperm);
          try assumption.
        -- now apply chain_tail in Hcp.
        -- now apply stable_tail_l in Hpq.
        -- now apply stable_tail_r in Hqp.
        -- now apply chain_next.
        -- now apply (stable_head ph sP).
        -- exists (ph_effect ph :: es), r1, r2; rewrite apply_effects_cons.
           repeat split; try assumption.
           cbn [map app]; now constructor.
    + destruct sQ as [| qh sQ].
      * destruct Hq as (r & -> & Hr); cbn [turn].
        apply (IH sP []); try assumption.
        exists r; split; [reflexivity | exact Hr].
      * cbn [follows] in Hq; destruct (Hq w Hiq) as [Hw Hq'].
        destruct (turn q w) as [w' q']; cbn [fst snd] in Hw, Hq'; subst w'.
        destruct (IH sP sQ p q' (do_effect (ph_effect qh) w)) as (es & r1 & r2 & E & H1 & H2 & Hperm);
          try assumption.
        -- now apply chain_tail in Hcq.
        -- now apply stable_tail_r in Hpq.
        -- now apply stable_tail_l in Hqp.
        -- now apply (stable_head qh sQ).
        -- now apply chain_next.
        -- exists (ph_effect qh :: es), r1, r2; rewrite apply_effects_cons.
           repeat split; try assumption.
           cbn [map]; now apply Permutation_cons_app.
Qed.

(** What the effects do to the tables. *)
Lemma total_do_effect (e : Effect) (w : World) (U : string) :
  sql_total_score (db (do_effect e w)) U = sql_total_score (db w) U + points U e.
Proof.
  destruct e as [| u t v | u a |]; cbn [do_effect points];
    try (rewrite Z.add_0_r; reflexivity).
  unfold with_history, sql_total_score, events_of; cbn [db set_db score_history set_score_history].
  rewrite filter_app, map_app, sum_Z_app; f_equal.
  cbn [filter history_row sh_userId].
  destruct (String.eqb u U); cbn; lia.
Qed.

Lemma total_apply_effects (es : list Effect) (U : string) :
  forall w, sql_total_score (db (apply_effects es w)) U =
            sql_total_score (db w) U + sum_Z (map (points U) es).
Proof.
  induction es as [| e es IH]; intros w.
  - cbn; lia.
  - rewrite apply_effects_cons, IH, total_do_effect.
    cbn [map sum_Z fold_right]; fold (sum_Z (map (points U) es)); lia.
Qed.

Lemma sum_Z_Permutation (l l' : list Z) : Permutation l l' -> sum_Z l = sum_Z l'.
Proof.
  unfold sum_Z; induction 1; cbn [fold_right]; lia.
Qed.

Lemma history_do_effect (e : Effect) (w : World) :
  List.length (score_history (db (do_effect e w))) =
  (List.length (score_history (db w)) + history_rows e)%nat.
Proof.
  destruct e; cbn [do_effect history_rows]; try (cbn; lia).
  unfold with_history; cbn [db set_db score_history set_score_history].
  rewrite length_app; reflexivity.
Qed.

Lemma history_apply_effects (es : list Effect) :
  forall w, List.length (score_history (db (apply_effects es w))) =
            (List.length (score_history (db w)) + list_sum (map history_rows es))%nat.
Proof.
  induction es as [| e es IH]; intros w.
  - cbn; lia.
  - rewrite apply_effects_cons, IH, history_do_effect.
    change (list_sum (map history_rows (e :: es)))
      with (history_rows e + list_sum (map history_rows es))%nat.
    lia.
Qed.

Lemma list_sum_Permutation (l l' : list nat) :
  Permutation l l' -> list_sum l = list_sum l'.
Proof. unfold list_sum; induction 1; cbn [fold_right]; lia. Qed.

Lemma find_app_keep {A : Type} (f : A -> bool) (l l' : list A) (x : A) :
  find f l = Some x -> find f (l ++ l')%list = Some x.
Proof.
  induction l as [| y l IH]; cbn [find app]; [discriminate |].
  destruct (f y); [trivial | exact IH].
Qed.

Lemma find_app_other {A : Type} (f : A -> bool) (l : list A) (x : A) :
  f x = false -> find f (l ++ [x])%list = find f l.
Proof.
  intros Hx; induction l as [| y l IH]; cbn [find app].
  - now rewrite Hx.
  - destruct (f y); [reflexivity | exact IH].
Qed.

Lemma processed_do_effect (e : Effect) (w : World) (a : string) :
  processed (db w) a = true -> processed (db (do_effect e w)) a = true.
Proof.
  destruct e as [| u t v | u a' |]; cbn [do_effect]; try (intros H; exact H).
  unfold with_action, processed, sql_idempotency; cbn [db set_db idempotency set_idempotency].
  destruct (find _ (idempotency (db w))) as [r |] eqn:E; [| discriminate].
  intros _; now rewrite (find_app_keep _ _ _ _ E).
Qed.

Lemma processed_apply_effects (es : list Effect) (u a : string) :
  forall w, In (AddAction u a) es -> processed (db (apply_effects es w)) a = true.
Proof.
  assert (Hkeep : forall es w, processed (db w) a = true ->
                               processed (db (apply_effects es w)) a = true).
  { induction es0 as [| e es0 IH]; intros w H; [exact H |].
    rewrite apply_effects_cons; apply IH, processed_do_effect, H. }
  induction es as [| e es IH]; intros w Hin; [destruct Hin |].
  destruct Hin as [-> | Hin].
  - rewrite apply_effects_cons; apply Hkeep.
    cbn [do_effect]; unfold with_action, processed, sql_idempotency;
      cbn [db set_db idempotency set_idempotency].
    destruct (find_app_here (fun r => String.eqb (i_action_id r) a)
                (idempotency (db w)) (MkIdempotencyRow a u (clock w))) as [y ->];
      [apply String.eqb_refl | reflexivity].
  - rewrite apply_effects_cons; now apply IH.
Qed.

Lemma redis_apply_effects (es : list Effect) :
  forall w, In DropKey es -> redis (apply_effects es w) = redis_empty.
Proof.
  assert (Hkeep : forall es w, redis w = redis_empty ->
                               redis (apply_effects es w) = redis_empty).
  { induction es0 as [| e es0 IH]; intros w H; [exact H |].
    rewrite apply_effects_cons; apply IH; destruct e; cbn [do_effect]; trivial. }
  induction es as [| e es IH]; intros w Hin; [destruct Hin |].
  destruct Hin as [-> | Hin].
  - rewrite apply_effects_cons; now apply Hkeep.
  - rewrite apply_effects_cons; now apply IH.
Qed.

Lemma users_apply_effects (es : list Effect) :
  forall w, users (db (apply_effects es w)) = users (db w).
Proof.
  induction es as [| e es IH]; intros w; [reflexivity |].
  rewrite apply_effects_cons, IH; now destruct e.
Qed.

Lemma needs_health_effect (e : Effect) (w : World) :
  needs_health w -> needs_health (do_effect e w).
Proof. destruct e; exact (fun H => H). Qed.

Lemma needs_unseen_effect (e : Effect) (a t : string) (v : Z) (w : World) :
  (forall u, e <> AddAction u a) ->
  needs_unseen a t v w -> needs_unseen a t v (do_effect e w).
Proof.
  intros Hne (Hdb & Hr & Hp & Hv).
  destruct e as [| u' t' v' | u' a' |]; cbn [do_effect];
    try (repeat split; assumption).
  repeat split; try assumption.
  unfold with_action, processed, sql_idempotency;
    cbn [db set_db idempotency set_idempotency].
  rewrite find_app_other; [exact Hp |].
  cbn [i_action_id]; apply String.eqb_neq; intros ->; now apply (Hne u').
Qed.

Lemma unseen_health (a t : string) (v : Z) (w : World) :
  needs_unseen a t v w -> needs_health w.
Proof. intros (Hdb & Hr & _); now split. Qed.

Lemma chain_update_phases (u a t : string) (v : Z) : chain (update_phases u a t v).
Proof.
  unfold update_phases; cbn [chain ph_inv ph_effect].
  repeat (apply conj;
          [ intros w H;
            first [ exact H
                  | apply needs_unseen_effect; [discriminate | exact H]
                  | apply needs_health_effect;
                    first [exact H | exact (unseen_health _ _ _ _ H)] ] |]).
  exact I.
Qed.

Lemma stable_update_phases (u1 a1 t1 u2 a2 t2 : string) (v1 v2 : Z) :
  a1 <> a2 -> stable (update_phases u1 a1 t1 v1) (update_phases u2 a2 t2 v2).
Proof.
  intros Hne ph ph' Hin Hin' w Hi Hi'.
  assert (He : forall u, ph_effect ph <> AddAction u a2).
  { intros u E; unfold update_phases in Hin; cbn [In] in Hin.
    repeat (destruct Hin as [<- | Hin]; [cbn [ph_effect] in E; try discriminate E |]);
      try contradiction.
    injection E as _ E; now apply Hne. }
  unfold update_phases in Hin'; cbn [In] in Hin'.
  repeat (destruct Hin' as [<- | Hin'];
          [cbn [ph_inv] in *;
           first [now apply needs_unseen_effect | now apply needs_health_effect] |]).
  contradiction.
Qed.

(** X12. Two score updates with different action ids that are in flight
    together are both recorded, whatever the order in which the event loop
    serves their turns.  On a store and a cache that answer, with both
    action ids new and both action types in the catalog, every schedule
    ends with both calls resolved, each reporting its own catalog value as
    [scoreIncrease]; every user's total has grown by exactly the values
    awarded to that user, two [score_history] rows were added, both action
    ids are in the idempotency table and the top-10 key is deleted. *)
Theorem concurrent_updates_both_recorded (w : World) (sched : list bool)
    (u1 a1 t1 u2 a2 t2 : string) (v1 v2 : Z) :
  db_ok w -> redis_ok w -> a1 <> a2 ->
  processed (db w) a1 = false -> processed (db w) a2 = false ->
  score_value (db w) t1 = Some v1 -> score_value (db w) t2 = Some v2 ->
  exists w' r1 r2,
    interleave sched (updateScore u1 a1 t1) (updateScore u2 a2 t2) w =
      (w', inr r1, inr r2) /\
    res_scoreIncrease r1 = v1 /\ res_scoreIncrease r2 = v2 /\
    (forall U, sql_total_score (db w') U =
               sql_total_score (db w) U
               + (if String.eqb u1 U then v1 else 0)
               + (if String.eqb u2 U then v2 else 0)) /\
    List.length (score_history (db w')) = (2 + List.length (score_history (db w)))%nat /\
    processed (db w') a1 = true /\ processed (db w') a2 = true /\
    users (db w') = users (db w) /\
    redis w' = redis_empty.
Proof.
  intros Hdb Hr Hne Hp1 Hp2 Hv1 Hv2.
  destruct (interleave_follows _ _ sched _ _ _ _ w
              (follows_updateScore u1 a1 t1 v1) (follows_updateScore u2 a2 t2 v2)
              (chain_update_phases u1 a1 t1 v1) (chain_update_phases u2 a2 t2 v2)
              (stable_update_phases u1 a1 t1 u2 a2 t2 v1 v2 Hne)
              (stable_update_phases u2 a2 t2 u1 a1 t1 v2 v1 (not_eq_sym Hne)))
    as (es & r1 & r2 & E & [_ H1] & [_ H2] & Hperm).
  { repeat split; assumption. }
  { repeat split; assumption. }
  exists (apply_effects es w), r1, r2.
  split; [exact E |]. split; [exact H1 |]. split; [exact H2 |].
  split; [| split; [| split; [| split; [| split]]]].
  - intros U; rewrite total_apply_effects.
    rewrite (sum_Z_Permutation _ _ (Permutation_map (points U) Hperm)).
    cbn [update_phases map app ph_effect points sum_Z fold_right].
    destruct (String.eqb u1 U), (String.eqb u2 U); lia.
  - rewrite history_apply_effects.
    rewrite (list_sum_Permutation _ _ (Permutation_map history_rows Hperm)).
    cbn [update_phases map app ph_effect history_rows list_sum fold_right]; lia.
  - apply (processed_apply_effects es u1).
    apply (Permutation_in _ (Permutation_sym Hperm)).
    cbn [update_phases map app ph_effect In]; tauto.
  - apply (processed_apply_effects es u2).
    apply (Permutation_in _ (Permutation_sym Hperm)).
    cbn [update_phases map app ph_effect In]; tauto.
  - apply users_apply_effects.
  - apply redis_apply_effects.
    apply (Permutation_in _ (Permutation_sym Hperm)).
    cbn [update_phases map app ph_effect In]; tauto.
Qed.

Lemma concurrent_updates_both_recorded_witness :
  exists w' r1 r2,
    interleave [true; false; false; true; true; false]
      (updateScore "A" "e1" "milestone") (updateScore "A" "e2" "level_up") world0 =
      (w', inr r1, inr r2) /\
    res_scoreIncrease r1 = 200 /\ res_scoreIncrease r2 = 100 /\
    (forall U, sql_total_score (db w') U =
               sql_total_score (db world0) U
               + (if String.eqb "A" U then 200 else 0)
               + (if String.eqb "A" U then 100 else 0)) /\
    List.length (score_history (db w')) =
      (2 + List.length (score_history (db world0)))%nat /\
    processed (db w') "e1" = true /\ processed (db w') "e2" = true /\
    users (db w') = users (db world0) /\
    redis w' = redis_empty.
Proof.
  apply (concurrent_updates_both_recorded world0 [true; false; false; true; true; false]
           "A" "e1" "milestone" "A" "e2" "level_up" 200 100);
    try reflexivity; discriminate.
Defined.

(** * Requests served one after another *)

Lemma processed_recorded_other (w : World) (u a t : string) (v : Z) (a' : string) :
  processed (db (recorded w u a t v)) a' = processed (db w) a' || String.eqb a a'.
Proof.
  rewrite db_recorded; unfold processed, sql_idempotency; cbn [idempotency].
  destruct (find _ (idempotency (db w))) as [r |] eqn:E.
  - now rewrite (find_app_keep _ _ _ _ E).
  - cbn [option_map orb].
    destruct (String.eqb a a') eqn:Ea.
    + destruct (find_app_here (fun r => String.eqb (i_action_id r) a')
                  (idempotency (db w)) (MkIdempotencyRow a u (clock w))) as [y ->];
        [exact Ea | reflexivity].
    + rewrite find_app_other by exact Ea. now rewrite E.
Qed.

Lemma existsb_eqb_In (a : string) (l : list string) :
  existsb (String.eqb a) l = true <-> In a l.
Proof.
  rewrite existsb_exists; split.
  - intros (x & Hx & E); apply String.eqb_eq in E; now subst.
  - intros H; exists a; split; [exact H | apply String.eqb_refl].
Qed.

Lemma credited_ids (d : Db) (calls : list Call) :
  forall seen,
  NoDup (map credit_id (credited d seen calls)) /\
  forall a, In a (map credit_id (credited d seen calls)) ->
            processed d a = false /\ ~ In a seen.
Proof.
  induction calls as [| c cs IH]; intros seen; cbn [credited].
  - split; [constructor | intros a []].
  - destruct (processed d (call_actionId c)) eqn:Hp; cbn [orb]; [apply IH |].
    destruct (existsb _ seen) eqn:Hs; [apply IH |].
    destruct (score_value d (call_actionType c)) as [v |]; [| apply IH].
    destruct (IH (call_actionId c :: seen)) as [Hnd Hin].
    cbn [map credit_id fst]; split.
    + constructor; [| exact Hnd].
      intros H; apply Hin in H; destruct H as [_ H]; apply H; now left.
    + intros a [<- | H].
      * split; [exact Hp |].
        intros H; apply (proj2 (existsb_eqb_In _ _)) in H.
        unfold credit_id in H; cbn [fst] in H; congruence.
      * apply Hin in H; destruct H as [H1 H2]; split; [exact H1 |].
        intros H; apply H2; now right.
Qed.

Lemma apply_events_credited (w0 : World) (calls : list Call) :
  forall (seen : list string) (w : World),
  db_ok w -> redis_ok w ->
  actions (db w) = actions (db w0) ->
  (forall a, processed (db w) a =
             processed (db w0) a || existsb (String.eqb a) seen) ->
  let w' := fst (apply_events calls w) in
  map history_core (score_history (db w')) =
    (map history_core (score_history (db w))
       ++ map credit_core (credited (db w0) seen calls))%list /\
  map i_action_id (idempotency (db w')) =
    (map i_action_id (idempotency (db w))
       ++ map credit_id (credited (db w0) seen calls))%list.
Proof.
  induction calls as [| c cs IH]; intros seen w Hdb Hr Hact Hproc;
    cbn [apply_events credited].
  - cbn [fst map]; now rewrite !app_nil_r.
  - set (wa := advance (call_after c) w).
    assert (Hsv : forall t, score_value (db wa) t = score_value (db w0) t).
    { intros t; unfold score_value, sql_action_score_value; cbn [wa advance db].
      now rewrite Hact. }
    assert (Hpa : processed (db wa) (call_actionId c) =
                  processed (db w0) (call_actionId c)
                  || existsb (String.eqb (call_actionId c)) seen)
      by apply Hproc.
    destruct (processed (db w0) (call_actionId c)
              || existsb (String.eqb (call_actionId c)) seen) eqn:Hseen.
    + rewrite (run_updateScore_replay wa) by assumption.
      pose proof (IH seen wa Hdb Hr Hact Hproc) as H.
      destruct (apply_events cs wa) as [w2 rs]; exact H.
    + specialize (Hsv (call_actionType c)).
      destruct (score_value (db w0) (call_actionType c)) as [v |].
      * rewrite (run_updateScore_fresh wa _ _ _ v) by assumption.
        destruct (IH (call_actionId c :: seen)
                    (recorded wa (call_userId c) (call_actionId c) (call_actionType c) v))
          as [Hh Hi]; try assumption.
        { intros a; rewrite processed_recorded_other.
          change (processed (db wa) a) with (processed (db w) a); rewrite Hproc.
          cbn [existsb]; rewrite (String.eqb_sym a).
          destruct (processed (db w0) a), (String.eqb (call_actionId c) a),
                   (existsb (String.eqb a) seen); reflexivity. }
        destruct (apply_events cs _) as [w2 rs]; cbn [fst] in *.
        rewrite Hh, Hi, db_recorded; cbn [score_history idempotency map].
        rewrite !map_app, <- !app_assoc; split; reflexivity.
      * rewrite (run_updateScore_invalid wa) by assumption.
        pose proof (IH seen wa Hdb Hr Hact Hproc) as H.
        destruct (apply_events cs wa) as [w2 rs]; exact H.
Qed.

Lemma In_processed (d : Db) (a : string) :
  In a (map i_action_id (idempotency d)) -> processed d a = true.
Proof.
  intros H; apply in_map_iff in H; destruct H as (r & <- & Hr).
  now apply processed_In.
Qed.

(** X13. Requests served one after another credit every action id at most
    once.  On a store and a cache that answer, a sequence of [updateScore]
    calls adds to [score_history] exactly one row per credited call, in the
    order of the calls and with that call's user, type and catalog value; a
    call is credited when its action type has a non-zero catalog value and
    its action id is neither in the idempotency table nor that of an earlier
    credited call.  The ids of the credited calls, in the same order, are
    added to the idempotency table.  Later calls with an id already used add
    nothing, whatever user or action type they name, and the idempotency
    table never holds an action id twice. *)
Theorem sequence_credits_each_action_once (w : World) (calls : list Call) :
  db_ok w -> redis_ok w ->
  let w' := fst (apply_events calls w) in
  let new := credited (db w) [] calls in
  map history_core (score_history (db w')) =
    (map history_core (score_history (db w)) ++ map credit_core new)%list /\
  action_ids_of w' = (action_ids_of w ++ map credit_id new)%list /\
  NoDup (map credit_id new) /\
  (NoDup (action_ids_of w) -> NoDup (action_ids_of w')).
Proof.
  intros Hdb Hr w' new.
  destruct (apply_events_credited w calls [] w Hdb Hr eq_refl) as [Hh Hi].
  { intros a; cbn [existsb]; now rewrite orb_false_r. }
  destruct (credited_ids (db w) calls []) as [Hnd Hin].
  split; [exact Hh |]. split; [exact Hi |]. split; [exact Hnd |].
  intros Hw; unfold action_ids_of, w'; rewrite Hi.
  apply NoDup_app; [exact Hw | exact Hnd |].
  intros a Ha Hn; apply Hin in Hn; destruct Hn as [Hn _].
  apply In_processed in Ha; congruence.
Qed.

Lemma sequence_credits_each_action_once_witness :
  let calls := [MkCall 0 "A" "e1" "quest_complete"; MkCall 5 "B" "e1" "milestone";
                MkCall 5 "A" "e2" "no_such_action"; MkCall 5 "B" "e2" "level_up";
                MkCall 5 "A" "e1" "quest_complete"] in
  let w' := fst (apply_events calls world0) in
  map history_core (score_history (db w')) =
    [("A", "quest_complete", 50); ("B", "level_up", 100)] /\
  action_ids_of w' = ["e1"; "e2"].
Proof.
  pose proof (sequence_credits_each_action_once world0
     [MkCall 0 "A" "e1" "quest_complete"; MkCall 5 "B" "e1" "milestone";
      MkCall 5 "A" "e2" "no_such_action"; MkCall 5 "B" "e2" "level_up";
      MkCall 5 "A" "e1" "quest_complete"] eq_refl eq_refl) as H.
  cbv zeta in H; destruct H as (Hh & Hi & _).
  split; [rewrite Hh | rewrite Hi]; reflexivity.
Defined.

(** * Start-up *)

Section SetupActions.

Variable now : Timestamp.

Let row (a : string * Z) : ActionRow := MkActionRow (fst a) (fst a) (snd a) now.

Let ins (d : Db) (a : string * Z) : Db :=
  if existsb (fun r' => String.eqb (a_id r') (fst a)
                        || String.eqb (a_action_type r') (fst a)) (actions d)
  then d else set_actions d (actions d ++ [row a]).

Let lookup (d : Db) (t : string) : option ActionRow :=
  find (fun a => String.eqb (a_action_type a) t) (actions d).

Lemma find_snoc {A : Type} (f : A -> bool) (l : list A) (x : A) :
  find f (l ++ [x])%list =
  match find f l with
  | Some y => Some y
  | None => if f x then Some x else None
  end.
Proof.
  induction l as [| y l IH]; cbn [app find]; [reflexivity |].
  destruct (f y); [reflexivity | exact IH].
Qed.

Lemma existsb_orb {A : Type} (f g : A -> bool) (l : list A) :
  existsb (fun x => f x || g x) l = existsb f l || existsb g l.
Proof.
  induction l as [| x l IH]; cbn [existsb]; [reflexivity |].
  rewrite IH; destruct (f x), (g x), (existsb f l), (existsb g l); reflexivity.
Qed.

Lemma existsb_find {A : Type} (f : A -> bool) (l : list A) :
  existsb f l = match find f l with Some _ => true | None => false end.
Proof.
  induction l as [| x l IH]; cbn [existsb find]; [reflexivity |].
  destruct (f x); [reflexivity | exact IH].
Qed.

Lemma ins_conflict (d : Db) (a : string * Z) :
  ins d a =
  if action_id_taken d (fst a) || match lookup d (fst a) with Some _ => true | None => false end
  then d else set_actions d (actions d ++ [row a]).
Proof.
  unfold ins, action_id_taken, lookup.
  now rewrite existsb_orb, (existsb_find (fun r => String.eqb (a_action_type r) (fst a))).
Qed.

Lemma ins_prefix (d : Db) (a : string * Z) :
  exists added, ins d a = set_actions d (actions d ++ added).
Proof.
  unfold ins; destruct (existsb _ _).
  - exists []; rewrite app_nil_r; now destruct d.
  - now exists [row a].
Qed.

Lemma setup_prefix (l : list (string * Z)) :
  forall d, exists added, fold_left ins l d = set_actions d (actions d ++ added).
Proof.
  induction l as [| a l IH]; intros d; cbn [fold_left].
  - exists []; rewrite app_nil_r; now destruct d.
  - destruct (ins_prefix d a) as [x ->].
    destruct (IH (set_actions d (actions d ++ x))) as [y ->].
    exists (x ++ y)%list; cbn [set_actions actions users score_history idempotency].
    now rewrite app_assoc.
Qed.

Lemma lookup_ins (d : Db) (a : string * Z) (t : string) :
  lookup (ins d a) t =
  match lookup d t with
  | Some x => Some x
  | None => if action_id_taken d (fst a)
               || match lookup d (fst a) with Some _ => true | None => false end
            then None
            else if String.eqb (fst a) t then Some (row a) else None
  end.
Proof.
  rewrite ins_conflict.
  destruct (action_id_taken d (fst a) || _) eqn:E.
  - now destruct (lookup d t).
  - unfold lookup; cbn [set_actions actions]; rewrite find_snoc; reflexivity.
Qed.

Lemma taken_ins (d : Db) (a : string * Z) (t : string) :
  action_id_taken (ins d a) t =
  action_id_taken d t
  || (negb (action_id_taken d (fst a)
            || match lookup d (fst a) with Some _ => true | None => false end)
      && String.eqb (fst a) t).
Proof.
  rewrite ins_conflict.
  destruct (action_id_taken d (fst a) || _) eqn:E; cbn [negb andb].
  - now rewrite orb_false_r.
  - unfold action_id_taken; cbn [set_actions actions].
    rewrite existsb_app; cbn [existsb row a_id]; now rewrite orb_false_r.
Qed.

Lemma setup_other (l : list (string * Z)) (t : string) :
  ~ In t (map fst l) ->
  forall d, lookup (fold_left ins l d) t = lookup d t /\
            action_id_taken (fold_left ins l d) t = action_id_taken d t.
Proof.
  induction l as [| a l IH]; intros Hn d; cbn [fold_left]; [now split |].
  cbn [map In] in Hn.
  assert (Ha : String.eqb (fst a) t = false) by (apply String.eqb_neq; tauto).
  destruct (IH (fun H => Hn (or_intror H)) (ins d a)) as [-> ->].
  rewrite lookup_ins, taken_ins, Ha, andb_false_r, orb_false_r.
  split; [| reflexivity].
  destruct (lookup d t); [reflexivity |]; now destruct (_ || _).
Qed.

Lemma setup_default (l : list (string * Z)) :
  NoDup (map fst l) ->
  forall d t v, In (t, v) l ->
  lookup (fold_left ins l d) t =
  match lookup d t with
  | Some x => Some x
  | None => if action_id_taken d t then None else Some (row (t, v))
  end.
Proof.
  induction l as [| a l IH]; intros Hnd d t v Hin; [destruct Hin |].
  cbn [map] in Hnd; apply NoDup_cons_iff in Hnd; destruct Hnd as [Hfresh Hnd].
  cbn [fold_left]; destruct Hin as [-> | Hin].
  - cbn [fst] in Hfresh.
    rewrite (proj1 (setup_other l t Hfresh (ins d (t, v)))).
    rewrite lookup_ins; cbn [fst]; rewrite String.eqb_refl.
    destruct (lookup d t); [reflexivity |].
    rewrite orb_false_r; now destruct (action_id_taken d t).
  - assert (Ha : String.eqb (fst a) t = false).
    { apply String.eqb_neq; intros <-; apply Hfresh.
      apply in_map_iff; now exists (fst a, v). }
    rewrite (IH Hnd (ins d a) t v Hin), lookup_ins, taken_ins, Ha.
    rewrite andb_false_r, orb_false_r.
    destruct (lookup d t); [reflexivity |]; now destruct (_ || _).
Qed.

Lemma setup_conflicts (l : list (string * Z)) :
  forall d a, In a l ->
  existsb (fun r' => String.eqb (a_id r') (fst a)
                     || String.eqb (a_action_type r') (fst a))
          (actions (fold_left ins l d)) = true.
Proof.
  induction l as [| a0 l IH]; intros d a Hin; [destruct Hin |].
  cbn [fold_left]; destruct Hin as [-> | Hin]; [| now apply IH].
  destruct (setup_prefix l (ins d a)) as [added ->]; cbn [set_actions actions].
  rewrite existsb_app; apply orb_true_iff; left.
  unfold ins; destruct (existsb _ (actions d)) eqn:E; [exact E |].
  cbn [set_actions actions]; rewrite existsb_app; apply orb_true_iff; right.
  cbn [existsb row a_id]; now rewrite String.eqb_refl.
Qed.

End SetupActions.

Lemma setup_twice (now' : Timestamp) (l : list (string * Z)) (d : Db) :
  (forall a, In a l ->
     existsb (fun r' => String.eqb (a_id r') (fst a)
                        || String.eqb (a_action_type r') (fst a)) (actions d) = true) ->
  fold_left (fun d a =>
               if existsb (fun r' => String.eqb (a_id r') (fst a)
                                     || String.eqb (a_action_type r') (fst a)) (actions d)
               then d
               else set_actions d (actions d ++ [MkActionRow (fst a) (fst a) (snd a) now']))
            l d = d.
Proof.
  induction l as [| a l IH]; intros H; cbn [fold_left]; [reflexivity |].
  rewrite (H a (or_introl eq_refl)); apply IH.
  intros a' Ha'; apply H; now right.
Qed.

Lemma run_setup (now : Timestamp) (l : list (string * Z)) :
  forall w, db_ok w ->
  fold_left
    (fun (st : World * (Error + unit)) (action : string * Z) =>
       let '(w1, res) := st in
       let '(w2, r) :=
         sql w1 (exec (fun d => sql_insert_or_ignore_action d
                        (MkActionRow (fst action) (fst action) (snd action) now))) in
       (w2, match res with inl e => inl e | inr _ => r end))
    l (w, inr tt) =
  (set_db w
     (fold_left (fun d a =>
                   if existsb (fun r' => String.eqb (a_id r') (fst a)
                                         || String.eqb (a_action_type r') (fst a))
                              (actions d)
                   then d
                   else set_actions d
                          (actions d ++ [MkActionRow (fst a) (fst a) (snd a) now]))
                l (db w)),
   inr tt).
Proof.
  induction l as [| a l IH]; intros w Hdb; cbn [fold_left].
  - now rewrite set_db_same.
  - set (r := MkActionRow (fst a) (fst a) (snd a) now).
    set (d1 := if existsb (fun r' => String.eqb (a_id r') (fst a)
                                     || String.eqb (a_action_type r') (fst a))
                          (actions (db w))
               then db w else set_actions (db w) (actions (db w) ++ [r])).
    assert (E : sql_insert_or_ignore_action (db w) r = inr d1)
      by (unfold sql_insert_or_ignore_action, d1; cbn [r a_id a_action_type];
          now destruct (existsb _ _)).
    rewrite (sql_exec_ok (fun d => sql_insert_or_ignore_action d r) w d1 Hdb E).
    rewrite (IH (set_db w d1) Hdb); reflexivity.
Qed.

(** X14. [setupDefaultActions] fills the catalog without touching what is
    there.  On a store that answers, the promise resolves; the rows of
    [actions] are kept as they are, in place, and only new rows are
    appended; no other table, nor the cache, changes.  A default action
    type that is already in the catalog keeps the value stored there,
    whatever the code says; one that is absent gets the code's value,
    unless a row of another type already holds its name as [id], in which
    case it stays absent.  Action types that are no defaults are answered
    as before.  Running it again, at any later time, changes nothing. *)
Theorem setupDefaultActions_keeps_existing (w : World) :
  db_ok w ->
  let w' := fst (Startup.setupDefaultActions w) in
  snd (Startup.setupDefaultActions w) = inr tt /\
  (exists added,
     w' = set_db w (set_actions (db w) (actions (db w) ++ added)%list)) /\
  (forall t v, In (t, v) Startup.defaultActions ->
     sql_action_score_value (db w') t =
     match sql_action_score_value (db w) t with
     | Some x => Some x
     | None => if action_id_taken (db w) t then None else Some v
     end) /\
  (forall t, ~ In t (map fst Startup.defaultActions) ->
     sql_action_score_value (db w') t = sql_action_score_value (db w) t) /\
  (forall ms, Startup.setupDefaultActions (advance ms w') = (advance ms w', inr tt)).
Proof.
  intros Hdb w'; unfold w', Startup.setupDefaultActions.
  rewrite (run_setup (clock w) Startup.defaultActions w Hdb); cbn [fst snd].
  split; [reflexivity |]. split; [| split; [| split]].
  - destruct (setup_prefix (clock w) Startup.defaultActions (db w)) as [added E].
    exists added; cbv zeta in E; now rewrite E.
  - intros t v Hin.
    assert (Hnd : NoDup (map fst Startup.defaultActions)).
    { cbn [Startup.defaultActions map fst].
      repeat (constructor; [cbn [In]; intros H; repeat (destruct H as [H | H]; [discriminate H |]); exact H |]).
      constructor. }
    pose proof (setup_default (clock w) Startup.defaultActions Hnd (db w) t v Hin) as H.
    cbv zeta in H; unfold sql_action_score_value; cbn [db set_db].
    rewrite H; destruct (find _ (actions (db w))); [reflexivity |].
    now destruct (action_id_taken (db w) t).
  - intros t Hn.
    pose proof (proj1 (setup_other (clock w) Startup.defaultActions t Hn (db w))) as H.
    cbv zeta in H; unfold sql_action_score_value; cbn [db set_db]; now rewrite H.
  - intros ms.
    set (d' := fold_left _ Startup.defaultActions (db w)).
    assert (Hdb' : db_ok (advance ms (set_db w d'))) by exact Hdb.
    rewrite (run_setup _ Startup.defaultActions _ Hdb').
    cbn [db advance set_db].
    rewrite setup_twice; [reflexivity |].
    intros a Ha; exact (setup_conflicts (clock w) Startup.defaultActions (db w) a Ha).
Qed.

Lemma setupDefaultActions_keeps_existing_witness :
  let w' := fst (Startup.setupDefaultActions world_old_catalog) in
  sql_action_score_value (db w') "milestone" = Some 500 /\
  sql_action_score_value (db w') "level_up" = Some 100 /\
  sql_action_score_value (db w') "no_such_action" = None /\
  Startup.setupDefaultActions (advance 60000 w') = (advance 60000 w', inr tt).
Proof.
  destruct (setupDefaultActions_keeps_existing world_old_catalog eq_refl)
    as (_ & _ & Hd & Ho & Hagain).
  split; [| split; [| split]].
  - rewrite (Hd "milestone" 200); [reflexivity |].
    cbn [Startup.defaultActions In]; tauto.
  - rewrite (Hd "level_up" 100); [reflexivity |].
    cbn [Startup.defaultActions In]; tauto.
  - rewrite Ho; [reflexivity |].
    cbn [Startup.defaultActions map fst In].
    intros H; repeat (destruct H as [H | H]; [discriminate H |]); exact H.
  - apply Hagain.
Defined.

(** * Reading back what was written *)

Lemma run_getScoresUser (w : World) (u : string) :
  db_ok w ->
  run (Routes.getScoresUser u) w =
  (w, inr (match sql_user_by_id (db w) u with
           | None => MkResponse 404 (ErrorBody "User not found" None None)
           | Some usr =>
               MkResponse 200 (UserBody u (u_username usr)
                                 (sql_total_score (db w) u) (sql_user_rank (db w) u))
           end)).
Proof.
  intros Hdb; unfold Routes.getScoresUser.
  rewrite run_try_catch, run_bind, run_getUserById by assumption.
  destruct (sql_user_by_id (db w) u) as [usr |]; [| reflexivity].
  rewrite run_bind, run_getUserScoreAndRank by assumption; reflexivity.
Qed.

(** X15. What the update route reports is what the user route then shows.
    On a store and a cache that answer, when [POST /api/scores/update] of a
    registered user is answered with 200, be it for a new action or for a
    replayed one, [GET /api/scores/user/:userId] of that user right after it
    answers 200 with the [newScore] and the [rank] of the update's answer
    and the user's name, and leaves the world as it is; for an id that is
    not in [users] it answers 404. *)
Theorem getScoresUser_shows_update (w w1 : World) (u a t : string) (usr : User)
    (res : ScoreUpdateResult) :
  db_ok w -> redis_ok w -> u <> "" -> a <> "" -> t <> "" ->
  sql_user_by_id (db w) u = Some usr ->
  run (Routes.postScoresUpdate (Some u) (JsString a) (JsString t)) w =
    (w1, inr (MkResponse 200 (UpdateBody res))) ->
  run (Routes.getScoresUser u) w1 =
    (w1, inr (MkResponse 200
                (UserBody u (u_username usr) (res_newScore res) (res_rank res)))) /\
  (forall u', sql_user_by_id (db w1) u' = None ->
     run (Routes.getScoresUser u') w1 =
       (w1, inr (MkResponse 404 (ErrorBody "User not found" None None)))).
Proof.
  intros Hdb Hr Hu Ha Ht Husr Hpost.
  rewrite (run_postScoresUpdate_service w u a t usr) in Hpost by assumption.
  assert (Hinj : forall (x y : World * (Error + Response)), x = y ->
                 fst x = fst y /\ snd x = snd y) by (intros x y ->; now split).
  destruct (processed (db w) a) eqn:Hp.
  - rewrite run_updateScore_replay in Hpost by assumption.
    apply Hinj in Hpost; cbn [fst snd] in Hpost; destruct Hpost as [<- Hres].
    injection Hres as <-.
    split.
    + rewrite run_getScoresUser, Husr by assumption; reflexivity.
    + intros u' Hu'; rewrite run_getScoresUser, Hu' by assumption; reflexivity.
  - destruct (score_value (db w) t) as [v |] eqn:Hv.
    + rewrite (run_updateScore_fresh w u a t v) in Hpost by assumption.
      apply Hinj in Hpost; cbn [fst snd] in Hpost; destruct Hpost as [<- Hres].
      injection Hres as <-.
      assert (Hdb1 : db_ok (recorded w u a t v)) by exact Hdb.
      split.
      * rewrite run_getScoresUser by assumption.
        change (sql_user_by_id (db (recorded w u a t v)) u)
          with (sql_user_by_id (db w) u); rewrite Husr; reflexivity.
      * intros u' Hu'; rewrite run_getScoresUser, Hu' by assumption; reflexivity.
    + rewrite run_updateScore_invalid in Hpost by assumption.
      exfalso; apply Hinj in Hpost; cbn [fst snd] in Hpost; destruct Hpost as [_ Hres].
      destruct (includes _ _) in Hres; discriminate Hres.
Qed.

Lemma getScoresUser_shows_update_witness :
  let w1 :=
    fst (run (Routes.postScoresUpdate (Some "A") (JsString "e1") (JsString "milestone"))
             world0) in
  run (Routes.getScoresUser "A") w1 =
    (w1, inr (MkResponse 200 (UserBody "A" "A" 200 1))).
Proof.
  refine (proj1 (getScoresUser_shows_update world0 _ "A" "e1" "milestone" (user "A")
                   (MkScoreUpdateResult "A" 0 200 200 1 1000%N)
                   eq_refl eq_refl _ _ _ eq_refl _));
    try discriminate; vm_compute; reflexivity.
Defined.

(** * Three ways to sum to n *)

Lemma gauss_succ (k : Z) : (k + 1) * (k + 2) / 2 = k * (k + 1) / 2 + (k + 1).
Proof.
  replace ((k + 1) * (k + 2)) with (k * (k + 1) + (k + 1) * 2) by ring.
  now rewrite Z.div_add by discriminate.
Qed.

Lemma for_loop_sum (n : Z) (fuel : nat) :
  forall total i,
  1 <= i <= n + 1 -> (Z.to_nat (n + 1 - i) < fuel)%nat ->
  Problem4.for_loop fuel n total i = Some (total + n * (n + 1) / 2 - (i - 1) * i / 2).
Proof.
  induction fuel as [| fuel IH]; intros total i Hi Hf; [lia |].
  cbn [Problem4.for_loop].
  destruct (Z.leb_spec i n) as [Hle | Hgt].
  - rewrite IH by lia.
    assert (E : (i + 1 - 1) * (i + 1) / 2 = (i - 1) * i / 2 + i).
    { replace ((i + 1 - 1) * (i + 1)) with ((i - 1) * i + i * 2) by ring.
      now rewrite Z.div_add by discriminate. }
    rewrite E; f_equal; lia.
  - replace i with (n + 1) by lia.
    replace (n + 1 - 1) with n by ring.
    f_equal; lia.
Qed.

Lemma reduce_from_length (k : nat) :
  fold_left (fun sum num => sum + num)
            (map (fun i => Z.of_nat i + 1) (seq 0 k)) 0 =
  Z.of_nat k * (Z.of_nat k + 1) / 2.
Proof.
  induction k as [| k IH]; [reflexivity |].
  rewrite seq_S, map_app, fold_left_app, IH; cbn [map fold_left Nat.add].
  replace (Z.of_nat (S k)) with (Z.of_nat k + 1) by lia.
  replace (Z.of_nat k + 1 + 1) with (Z.of_nat k + 2) by ring.
  now rewrite gauss_succ.
Qed.

Lemma sum_to_n_c_frames (stack : nat) :
  forall n, 0 <= n ->
  Problem4.sum_to_n_c stack n =
  if (Z.to_nat n <? stack)%nat then inr (n * (n + 1) / 2)
  else inl (MkError "Maximum call stack size exceeded").
Proof.
  induction stack as [| stack IH]; intros n Hn; [reflexivity |].
  cbn [Problem4.sum_to_n_c].
  destruct (Z.leb_spec n 0) as [H0 | Hpos].
  - replace n with 0 by lia; reflexivity.
  - rewrite IH by lia.
    replace (Z.to_nat n) with (S (Z.to_nat (n - 1))) by lia.
    change (S (Z.to_nat (n - 1)) <? S stack)%nat with (Z.to_nat (n - 1) <? stack)%nat.
    destruct (Z.to_nat (n - 1) <? stack)%nat; [| reflexivity].
    f_equal.
    replace (n * (n + 1)) with ((n - 1 + 1) * (n - 1 + 2)) by ring.
    rewrite gauss_succ.
    replace (n - 1 + 1) with n by ring; lia.
Qed.

(** X16. The three implementations agree on the integers from 0 on whose
    sum is exact, and compute [n (n + 1) / 2].  For [0 <= n <= 134217727]
    the sum is at most [MAX_SAFE_INTEGER]; the loop of [sum_to_n_a] ends
    after [n + 1] tests of its condition with that sum, [sum_to_n_b]
    returns it, and [sum_to_n_c] returns it when the call stack has room for
    [n + 1] frames and throws when it has not. *)
Theorem sum_to_n_agree (n : Z) (fuel stack : nat) :
  0 <= n <= 134217727 -> (Z.to_nat n < fuel)%nat ->
  n * (n + 1) / 2 <= Problem4.MAX_SAFE_INTEGER /\
  Problem4.sum_to_n_a fuel n = Some (n * (n + 1) / 2) /\
  Problem4.sum_to_n_a (Z.to_nat n) n = None /\
  Problem4.sum_to_n_b n = inr (n * (n + 1) / 2) /\
  Problem4.sum_to_n_c stack n =
    if (Z.to_nat n <? stack)%nat then inr (n * (n + 1) / 2)
    else inl (MkError "Maximum call stack size exceeded").
Proof.
  intros Hn Hf; split; [| split; [| split; [| split]]].
  - unfold Problem4.MAX_SAFE_INTEGER.
    apply Z.div_le_upper_bound; [lia | nia].
  - unfold Problem4.sum_to_n_a; rewrite for_loop_sum by lia.
    f_equal; cbn; lia.
  - unfold Problem4.sum_to_n_a.
    assert (G : forall k total i, i + Z.of_nat k <= n + 1 -> 
                Problem4.for_loop k n total i = None).
    { induction k as [| k IH]; intros total i Hi; [reflexivity |].
      cbn [Problem4.for_loop].
      destruct (Z.leb_spec i n); [apply IH |]; lia. }
    apply G; lia.
  - unfold Problem4.sum_to_n_b, Problem4.array_from_length.
    destruct (Z.ltb_spec 4294967295 n); [lia |].
    rewrite reduce_from_length; f_equal.
    now rewrite Z2Nat.id by lia.
  - apply sum_to_n_c_frames; lia.
Qed.

Lemma sum_to_n_agree_witness :
  Problem4.sum_to_n_a 101 100 = Some 5050 /\
  Problem4.sum_to_n_b 100 = inr 5050 /\
  Problem4.sum_to_n_c 101 100 = inr 5050.
Proof.
  destruct (sum_to_n_agree 100 101 101) as (_ & Ha & _ & Hb & Hc); [lia | lia |].
  repeat split; assumption.
Defined.

(** X17. For an integer [n <= 0] the three implementations return 0: the
    loop's condition fails at once, the array has length 0 and [reduce]
    returns its initial value, and the recursion stops in its first frame. *)
Theorem sum_to_n_nonpositive (n : Z) (fuel stack : nat) :
  n <= 0 ->
  Problem4.sum_to_n_a (S fuel) n = Some 0 /\
  Problem4.sum_to_n_b n = inr 0 /\
  Problem4.sum_to_n_c (S stack) n = inr 0.
Proof.
  intros Hn; split; [| split].
  - unfold Problem4.sum_to_n_a; cbn [Problem4.for_loop].
    destruct (Z.leb_spec 1 n); [lia | reflexivity].
  - unfold Problem4.sum_to_n_b, Problem4.array_from_length.
    destruct (Z.ltb_spec 4294967295 n); [lia |].
    replace (Z.to_nat n) with 0%nat by lia; reflexivity.
  - cbn [Problem4.sum_to_n_c].
    destruct (Z.leb_spec n 0); [reflexivity | lia].
Qed.

Lemma sum_to_n_nonpositive_witness :
  Problem4.sum_to_n_a 1 (-5) = Some 0 /\
  Problem4.sum_to_n_b (-5) = inr 0 /\
  Problem4.sum_to_n_c 1 (-5) = inr 0.
Proof. apply (sum_to_n_nonpositive (-5) 0 0); lia. Defined.
